(** * shiv-websocket: the TradingView webhook relay of [src/server.js]

    A shallow embedding of the order pipeline of [server.js]: the instrument
    directory ([syncInstruments], [getInstrumentToken]), the duplicate
    tracker ([isDuplicateSignal]), the token lifecycle
    ([ensureValidAccessToken]) and the webhook handler
    ([app.post("/webhook/tradingview")]).

    Conventions of the embedding.
    - A JavaScript value that may be [undefined] or [null] is an [option];
      a string is a [string]; a number is an integer [Z] (quantities, prices
      in whole units, millisecond clock readings: all exact as doubles below
      2^53).  Where the code tells [null] from [undefined] (the available
      margin in a comparison) the two are kept apart.
    - A signal's quantity and the quantity limit are [scalar]s: a number, or
      the string that spells it when the JSON body quotes the quantity or
      the environment sets the limit, because [>] compares two strings by
      their characters.  The other two limits and the price only ever meet
      numbers and are taken at their numeric value.
    - The objects used as dictionaries ([instrumentMap],
      [symbolToInstrumentMap]) and the [Map] [recentSignals] are [gmap]s
      keyed by strings.
    - Every call that leaves the process (brokerage, storage, clock) reads
      its answer from a [world] record and leaves an [event] in a trace, so
      that "no funds lookup happened" is a statement about the trace.
    - A webhook call runs to completion before the next one starts.  The
      duplicate tracker is only written in the synchronous head of the
      handler, before its first [await], so for the tracker this is the order
      of arrival. *)

From Stdlib Require Import ZArith Lia Ascii String.
From stdpp Require Import gmap strings list fin_maps pretty sorting.

Local Open Scope Z_scope.

(** ** JavaScript primitives *)

(** [!v] is false exactly for a present, non-empty string. *)
Definition truthy_str (v : option string) : bool :=
  match v with
  | Some s => negb (String.eqb s "")
  | None => false
  end.

(** [!n] for a number that may be absent: [undefined], [null] and [0] are
    falsy. *)
Definition truthy_num (v : option Z) : bool :=
  match v with
  | Some n => negb (n =? 0)
  | None => false
  end.

(** A whole number as JavaScript may hold it: the number itself, or a string
    that spells it in decimal digits (["1000"] is [Str 1000]), which is what
    a quoted TradingView placeholder and a numeric environment variable
    are.  An empty string behaves like an absent value and is [None]. *)
Inductive scalar :=
  | Num (n : Z)
  | Str (n : Z).

Global Instance scalar_eq_dec : EqDecision scalar.
Proof. solve_decision. Defined.

(** [Number(v)]. *)
Definition value (v : scalar) : Z :=
  match v with
  | Num n => n
  | Str n => n
  end.

(** [!v]: the number 0 is falsy; a string of digits is not empty and is
    truthy, ["0"] included. *)
Definition truthy_scalar (v : option scalar) : bool :=
  match v with
  | Some (Num n) => negb (n =? 0)
  | Some (Str _) => true
  | None => false
  end.

(** [a > b]: two strings are compared character by character, anything else
    as numbers. *)
Definition js_gt (a b : scalar) : bool :=
  match a, b with
  | Str x, Str y => String.ltb (pretty y) (pretty x)
  | _, _ => bool_decide (value b < value a)
  end.

(** [funds.equity.available_margin]: a number, [null], or [undefined] when
    the answer has no such field. *)
Inductive margin_value :=
  | Margin (m : Z)
  | MarginNull
  | MarginUndefined.

(** [requiredCapital > availableMargin]: [null] counts as 0, and a comparison
    with [undefined] is false. *)
Definition exceeds_margin (requiredCapital : Z) (availableMargin : margin_value) : bool :=
  match availableMargin with
  | Margin m => bool_decide (m < requiredCapital)
  | MarginNull => bool_decide (0 < requiredCapital)
  | MarginUndefined => false
  end.

(** [a === b] on two values that are strings when present. *)
Definition strict_eq (a b : option string) : bool := bool_decide (a = b).

(** [s.split(sep)] for a one-character separator: never empty, ["".split(":")]
    is [[""]], and a trailing separator yields a trailing empty piece. *)
Fixpoint split (sep : ascii) (s : string) : list string :=
  match s with
  | EmptyString => [EmptyString]
  | String c rest =>
      if Ascii.eqb c sep then EmptyString :: split sep rest
      else match split sep rest with
           | piece :: pieces => String c piece :: pieces
           | [] => [String c EmptyString]
           end
  end.

(** Does the string contain the separator? *)
Fixpoint contains (sep : ascii) (s : string) : bool :=
  match s with
  | EmptyString => false
  | String c rest => Ascii.eqb c sep || contains sep rest
  end.

(** The key an object is indexed with: [obj[undefined]] reads the property
    named "undefined". *)
Definition property_key (v : option string) : string := default "undefined"%string v.

(** ** Instrument directory *)

(** A record of the brokerage catalog; an absent field is [None]. *)
Record instrument := Instrument {
  instrument_key : option string;
  trading_symbol : option string;
  exchange : option string
}.

Global Instance instrument_eq_dec : EqDecision instrument.
Proof. solve_decision. Defined.

(** [instrumentMap] (by instrument key) and [symbolToInstrumentMap] (by
    trading symbol).  Trading symbols are assumed not to name a property of
    [Object.prototype], so that a read of a missing key is [undefined]. *)
Record directory := Directory {
  instrumentMap : gmap string instrument;
  symbolToInstrumentMap : gmap string instrument
}.

Definition empty_directory : directory := Directory ∅ ∅.

(** The body of [instruments.forEach((inst) => ...)], the same in the remote
    branch and in the local fallback of [syncInstruments]. *)
Definition merge_instrument (d : directory) (inst : instrument) : directory :=
  let byKey :=
    match instrument_key inst with
    | Some key => if truthy_str (Some key) then <[key := inst]> (instrumentMap d)
                  else instrumentMap d
    | None => instrumentMap d
    end in
  let bySymbol :=
    match trading_symbol inst with
    | Some symbol =>
        if truthy_str (Some symbol) then
          if negb (bool_decide (is_Some (symbolToInstrumentMap d !! symbol)))
             || strict_eq (exchange inst) (Some "NSE"%string)
          then <[symbol := inst]> (symbolToInstrumentMap d)
          else symbolToInstrumentMap d
        else symbolToInstrumentMap d
    | None => symbolToInstrumentMap d
    end in
  Directory byKey bySymbol.

Definition segments : list string := ["NSE"; "BSE"; "MCX"]%string.

(** What one run of [syncInstruments] reads from outside: per segment, the
    parsed remote catalog ([None] when the download, the gunzip or the parse
    throws) and the parsed local fallback file ([None] when it does not exist
    or does not parse). *)
Record catalog_source := CatalogSource {
  remote_catalog : string → option (list instrument);
  local_catalog : string → option (list instrument)
}.

(** One iteration of [for (const segment of segments)]. *)
Definition syncSegment (src : catalog_source) (d : directory) (segment : string) : directory :=
  match remote_catalog src segment with
  | Some instruments => foldl merge_instrument d instruments
  | None =>
      match local_catalog src segment with
      | Some instruments => foldl merge_instrument d instruments
      | None => d
      end
  end.

Definition syncInstruments (src : catalog_source) (d : directory) : directory :=
  foldl (syncSegment src) d segments.

(** The catalog entries one run merges, in the order it merges them. *)
Definition segment_entries (src : catalog_source) (segment : string) : list instrument :=
  match remote_catalog src segment with
  | Some instruments => instruments
  | None => default [] (local_catalog src segment)
  end.

Definition synced_entries (src : catalog_source) : list instrument :=
  concat (map (segment_entries src) segments).

(** [getInstrumentToken(symbol)]: the trading symbol is the second piece of
    an exchange-qualified symbol and the whole symbol otherwise. *)
Definition lookup_symbol (symbol : string) : option string :=
  let parts := split ":"%char symbol in
  if bool_decide (1 < length parts)%nat then parts !! 1%nat else parts !! 0%nat.

Definition getInstrumentToken (d : directory) (symbol : string) : option string :=
  match symbolToInstrumentMap d !! property_key (lookup_symbol symbol) with
  | None => None
  | Some inst => instrument_key inst
  end.

(** *** The rule the specification words for duplicate symbols *)

Definition names_symbol (s : string) (inst : instrument) : bool :=
  bool_decide (trading_symbol inst = Some s).

Definition is_nse (inst : instrument) : bool := strict_eq (exchange inst) (Some "NSE"%string).

(** The specification's reading follows: among the entries of a symbol the
    last one wins, except that an NSE entry is preferred to the others. *)
Definition spec_last_writer_nse_preferred (s : string) (entries : list instrument)
  : option instrument :=
  match last (filter (λ i, names_symbol s i && is_nse i = true) entries) with
  | Some i => Some i
  | None => last (filter (λ i, names_symbol s i = true) entries)
  end.

(** What the code stores: the last NSE entry, else what the map already held,
    else the first entry of the symbol. *)
Definition first_writer_nse_preferred (s : string) (before : option instrument)
    (entries : list instrument) : option instrument :=
  match last (filter (λ i, names_symbol s i && is_nse i = true) entries) with
  | Some i => Some i
  | None =>
      match before with
      | Some i => Some i
      | None => head (filter (λ i, names_symbol s i = true) entries)
      end
  end.

(** ** Configuration, signals and process state *)

(** The environment: the webhook secret ([undefined] when unset) and the
    three limits, each already defaulted ([process.env.X || default]).  The
    quantity limit is the number 100 when the variable is unset and a string
    when it is set. *)
Record config := Config {
  WEBHOOK_SECRET : option string;
  MAX_CAPITAL_PER_TRADE : Z;
  MAX_TOTAL_POSITIONS : Z;
  MAX_QUANTITY_PER_TRADE : scalar
}.

Definition DUPLICATE_SIGNAL_WINDOW : Z := 60000.

(** The JSON body of a webhook call, [req.body], once it is parsed. *)
Record payload := Payload {
  token : option string;
  symbol : option string;
  action : option string;
  quantity : option scalar;
  price : option Z
}.

(** An entry of the brokerage's short-term positions: trading symbol and
    signed quantity ([parseInt] of an integer is that integer). *)
Record position := Position {
  p_trading_symbol : string;
  p_quantity : Z
}.

(** [upstoxAccessToken], [upstoxRefreshToken], [tokenExpiryTime]. *)
Record credentials := Credentials {
  upstoxAccessToken : option string;
  upstoxRefreshToken : option string;
  tokenExpiryTime : option Z
}.

(** The module-level variables of [server.js]. *)
Record state := State {
  creds : credentials;
  recentSignals : gmap string Z;
  dir : directory
}.

Definition set_creds (c : credentials) (st : state) : state :=
  State c (recentSignals st) (dir st).

Definition set_recentSignals (m : gmap string Z) (st : state) : state :=
  State (creds st) m (dir st).

Definition initial_state : state :=
  State (Credentials None None None) ∅ empty_directory.

(** ** Observable effects *)

(** The reason stored with an order-log entry. *)
Inductive reason :=
  | DuplicateSignal
  | NoValidAccessToken
  | InstrumentTokenNotFound
  | AlreadyLong
  | AlreadyShort
  | MaxTotalPositions (limit : Z)
  | QuantityExceeds (requested limit : Z)
  | CouldNotVerifyFunds
  | CapitalExceeds (required limit : Z)
  | InsufficientMargin (required : Z) (available : margin_value)
  | ErrorMessage (msg : string).

(** [`${availableMargin}`]. *)
Definition margin_text (availableMargin : margin_value) : string :=
  match availableMargin with
  | Margin m => pretty m
  | MarginNull => "null"
  | MarginUndefined => "undefined"
  end.

(** The text [logWebhookOrder] receives for each reason. *)
Definition reason_text (r : reason) : string :=
  match r with
  | DuplicateSignal => "duplicate signal"
  | NoValidAccessToken => "no valid access token"
  | InstrumentTokenNotFound => "instrument token not found"
  | AlreadyLong => "already have long position"
  | AlreadyShort => "already have short position"
  | MaxTotalPositions limit =>
      "max total positions reached (" +:+ pretty limit +:+ ")"
  | QuantityExceeds requested limit =>
      "quantity (" +:+ pretty requested +:+ ") exceeds max limit (" +:+ pretty limit +:+ ")"
  | CouldNotVerifyFunds => "could not verify funds"
  | CapitalExceeds required limit =>
      "required capital (" +:+ pretty required +:+ ") exceeds max limit ("
        +:+ pretty limit +:+ ")"
  | InsufficientMargin required available =>
      "insufficient margin (req: " +:+ pretty required +:+ ", avail: "
        +:+ margin_text available +:+ ")"
  | ErrorMessage msg => msg
  end.

(** The JSON bodies the webhook answers with. *)
Inductive response_body :=
  | Unauthorized
  | InvalidPayload
  | Skipped (why : string)
  | Received.

Inductive event :=
  | Respond (status : Z) (body : response_body)
  | LogWebhookOrder (data : payload) (status : string) (why : option reason)
      (order_id : option string)
  | RefreshToken (refresh_token : option string)
  | DeleteTokens
  | InsertTokens (access refresh : option string)
  | GetPositions
  | GetFunds
  | PlaceOrder (qty : option scalar) (instrument_token : string)
      (transaction_type : option string).

(** What [getFunds] hands to the handler: [null], an object without
    [equity] (reading [funds.equity.available_margin] then throws, with the
    engine's message), or the available margin. *)
Inductive funds_result :=
  | FundsUnavailable
  | FundsWithoutEquity (msg : string)
  | FundsAvailable (available_margin : margin_value).

(** The order endpoint's answer: a failed call (with the message the catch
    block extracts), an accepted order, or an accepted order whose body has
    no [data] (reading [order_id] then throws). *)
Inductive order_result :=
  | OrderRejected (msg : string)
  | OrderPlaced (order_id : option string)
  | OrderPlacedWithoutData (msg : string).

(** Everything one webhook call reads from outside the process. *)
Record world := World {
  now_signal : Z;
  now_token_check : Z;
  refresh_response : option (option string * option string);
  now_refreshed : Z;
  delete_tokens_ok : bool;
  positions_response : option (list position);
  funds_response : funds_result;
  order_response : order_result
}.

(** ** A monad for the handler: state, trace, [return] and [throw] *)

Inductive outcome (A : Type) :=
  | Next (a : A)
  | Return
  | Throw (msg : string).
Arguments Next {A} a.
Arguments Return {A}.
Arguments Throw {A} msg.

Definition M (A : Type) : Type := state → outcome A * state * list event.

Global Instance M_ret : MRet M := λ A a st, (Next a, st, []).

Global Instance M_bind : MBind M := λ A B f m st,
  match m st with
  | (Next a, st1, tr1) =>
      match f a st1 with
      | (o, st2, tr2) => (o, st2, tr1 ++ tr2)
      end
  | (Return, st1, tr1) => (Return, st1, tr1)
  | (Throw msg, st1, tr1) => (Throw msg, st1, tr1)
  end.

Definition emit (e : event) : M unit := λ st, (Next (), st, [e]).
Definition stop {A} : M A := λ st, (Return, st, []).
Definition throw {A} (msg : string) : M A := λ st, (Throw msg, st, []).
Definition get_state : M state := λ st, (Next st, st, []).
Definition put_state (st : state) : M unit := λ _, (Next (), st, []).

(** ** Duplicate tracker *)

(** The tracker's key, [`${symbol}-${action}`]. *)
Definition signal_key (sym act : string) : string := sym +:+ "-" +:+ act.

(** [isDuplicateSignal(symbol, action)] at clock reading [now]: the answer
    and the tracker afterwards. *)
Definition isDuplicateSignal (now : Z) (sym act : string) (recent : gmap string Z)
  : bool * gmap string Z :=
  let key := signal_key sym act in
  let lastTime := recent !! key in
  if truthy_num lastTime && bool_decide (now - default 0 lastTime < DUPLICATE_SIGNAL_WINDOW)
  then (true, recent)
  else
    let recent1 := <[key := now]> recent in
    (false,
     if bool_decide (100 < size recent1)%nat
     then filter (λ kv, ¬ (DUPLICATE_SIGNAL_WINDOW < now - kv.2)) recent1
     else recent1).

(** ** Token lifecycle *)

Definition saveTokensToDB (w : world) (access refresh : option string) : M unit :=
  emit DeleteTokens ;;
  if delete_tokens_ok w then emit (InsertTokens access refresh) else mret ().

(** The staleness test [Date.now() >= tokenExpiryTime - 60000]; a [null]
    expiry counts as 0. *)
Definition stale (now : Z) (c : credentials) : bool :=
  bool_decide (default 0 (tokenExpiryTime c) - 60000 ≤ now).

Definition refreshed_expiry (now : Z) : Z := now + 23 * 60 * 60 * 1000.

Definition ensureValidAccessToken (w : world) : M bool :=
  st ← get_state ;
  if negb (truthy_str (upstoxAccessToken (creds st))) then mret false
  else if stale (now_token_check w) (creds st) then
    emit (RefreshToken (upstoxRefreshToken (creds st))) ;;
    match refresh_response w with
    | None => mret false
    | Some (access, refresh) =>
        put_state (set_creds
          (Credentials access refresh (Some (refreshed_expiry (now_refreshed w)))) st) ;;
        saveTokensToDB w access refresh ;;
        mret true
    end
  else mret true.

(** ** The webhook handler, [app.post("/webhook/tradingview")] *)

(** The insert into [tradingview_logs]; its own failures are caught inside
    and never reach the caller. *)
Definition logWebhookOrder (data : payload) (status : string) (why : option reason)
    (order_id : option string) : M unit :=
  emit (LogWebhookOrder data status why order_id).

Definition authorized (cfg : config) (data : payload) : bool :=
  truthy_str (token data) && strict_eq (token data) (WEBHOOK_SECRET cfg).

(** Required fields present: [data.symbol && data.action && data.quantity]. *)
Definition well_formed (data : payload) : bool :=
  truthy_str (symbol data) && truthy_str (action data) && truthy_scalar (quantity data).

Definition authenticate (cfg : config) (data : payload) : M unit :=
  if negb (truthy_str (token data)) || negb (strict_eq (token data) (WEBHOOK_SECRET cfg))
  then emit (Respond 401 Unauthorized) ;; stop
  else mret ().

Definition validate (data : payload) : M unit :=
  if negb (truthy_str (symbol data)) || negb (truthy_str (action data))
     || negb (truthy_scalar (quantity data))
  then emit (Respond 400 InvalidPayload) ;; stop
  else mret ().

(** The symbol and the action of a validated payload are strings. *)
Definition symbol_of (data : payload) : string := default ""%string (symbol data).
Definition action_of (data : payload) : string := default ""%string (action data).
Definition quantity_of (data : payload) : Z := default 0 (value <$> quantity data).

Definition suppress_duplicate (w : world) (data : payload) : M unit :=
  st ← get_state ;
  let result := isDuplicateSignal (now_signal w) (symbol_of data) (action_of data)
                  (recentSignals st) in
  put_state (set_recentSignals result.2 st) ;;
  if result.1 then
    logWebhookOrder data "skipped" (Some DuplicateSignal) None ;;
    emit (Respond 200 (Skipped "duplicate signal")) ;;
    stop
  else mret ().

Definition require_token (w : world) (data : payload) : M unit :=
  valid ← ensureValidAccessToken w ;
  if negb valid then
    logWebhookOrder data "failed" (Some NoValidAccessToken) None ;; stop
  else mret ().

Definition resolve_instrument (data : payload) : M string :=
  st ← get_state ;
  match getInstrumentToken (dir st) (symbol_of data) with
  | Some instrumentToken =>
      if truthy_str (Some instrumentToken) then mret instrumentToken
      else logWebhookOrder data "failed" (Some InstrumentTokenNotFound) None ;; stop
  | None => logWebhookOrder data "failed" (Some InstrumentTokenNotFound) None ;; stop
  end.

(** [getPositions()]: the list of the answer, [[]] when the call fails or the
    answer carries no list. *)
Definition getPositions (w : world) : M (list position) :=
  emit GetPositions ;; mret (default [] (positions_response w)).

(** [data.symbol.split(":")[1]]: [undefined] when the symbol has no colon. *)
Definition tradingSymbol (data : payload) : option string :=
  split ":"%char (symbol_of data) !! 1%nat.

(** [positions.find(p => p.trading_symbol === tradingSymbol)]. *)
Definition existingPosition (positions : list position) (ts : option string)
  : option position :=
  List.find (λ p, strict_eq (Some (p_trading_symbol p)) ts) positions.

Definition directional_check (data : payload) (existing : option position) : M unit :=
  if strict_eq (action data) (Some "BUY"%string) then
    match existing with
    | Some p =>
        if bool_decide (0 < p_quantity p) then
          logWebhookOrder data "skipped" (Some AlreadyLong) None ;; stop
        else mret ()
    | None => mret ()
    end
  else if strict_eq (action data) (Some "SELL"%string) then
    match existing with
    | Some p =>
        if bool_decide (p_quantity p < 0) then
          logWebhookOrder data "skipped" (Some AlreadyShort) None ;; stop
        else mret ()
    | None => mret ()
    end
  else mret ().

(** [positions.filter(p => parseInt(p.quantity) !== 0)]. *)
Definition activePositions (positions : list position) : list position :=
  filter (λ p, p_quantity p ≠ 0) positions.

Definition position_count_check (cfg : config) (data : payload)
    (positions : list position) (existing : option position) : M unit :=
  if bool_decide (MAX_TOTAL_POSITIONS cfg ≤ Z.of_nat (length (activePositions positions)))
     && negb (bool_decide (is_Some existing))
  then
    logWebhookOrder data "skipped" (Some (MaxTotalPositions (MAX_TOTAL_POSITIONS cfg))) None ;;
    stop
  else mret ().

(** [data.quantity > MAX_QUANTITY_PER_TRADE]; the quantity of a validated
    payload is present. *)
Definition exceeds_quantity_limit (cfg : config) (data : payload) : bool :=
  match quantity data with
  | Some q => js_gt q (MAX_QUANTITY_PER_TRADE cfg)
  | None => false
  end.

Definition quantity_check (cfg : config) (data : payload) : M unit :=
  if exceeds_quantity_limit cfg data then
    logWebhookOrder data "skipped"
      (Some (QuantityExceeds (quantity_of data) (value (MAX_QUANTITY_PER_TRADE cfg)))) None ;;
    stop
  else mret ().

(** [getFunds()] and the read of [funds.equity.available_margin]. *)
Definition fetch_margin (w : world) (data : payload) : M margin_value :=
  emit GetFunds ;;
  match funds_response w with
  | FundsUnavailable =>
      logWebhookOrder data "failed" (Some CouldNotVerifyFunds) None ;; stop
  | FundsWithoutEquity msg => throw msg
  | FundsAvailable availableMargin => mret availableMargin
  end.

(** [const price = data.price || 0]. *)
Definition price_of (data : payload) : Z := default 0 (price data).

(** The capital ceiling and the margin test. *)
Definition capital_check (cfg : config) (data : payload) (availableMargin : margin_value)
  : M unit :=
  if bool_decide (0 < price_of data) then
    let requiredCapital := price_of data * quantity_of data in
    if bool_decide (MAX_CAPITAL_PER_TRADE cfg < requiredCapital) then
      logWebhookOrder data "skipped"
        (Some (CapitalExceeds requiredCapital (MAX_CAPITAL_PER_TRADE cfg))) None ;;
      stop
    else if exceeds_margin requiredCapital availableMargin then
      logWebhookOrder data "skipped"
        (Some (InsufficientMargin requiredCapital availableMargin)) None ;;
      stop
    else mret ()
  else mret ().

Definition place_order (w : world) (data : payload) (instrumentToken : string) : M unit :=
  emit (PlaceOrder (quantity data) instrumentToken (action data)) ;;
  match order_response w with
  | OrderRejected msg => throw msg
  | OrderPlaced order_id => logWebhookOrder data "success" None order_id
  | OrderPlacedWithoutData msg => throw msg
  end.

(** The body of the handler's [try] block. *)
Definition webhook_try (cfg : config) (w : world) (data : payload) : M unit :=
  authenticate cfg data ;;
  validate data ;;
  suppress_duplicate w data ;;
  emit (Respond 200 Received) ;;
  require_token w data ;;
  instrumentToken ← resolve_instrument data ;
  positions ← getPositions w ;
  let existing := existingPosition positions (tradingSymbol data) in
  directional_check data existing ;;
  position_count_check cfg data positions existing ;;
  quantity_check cfg data ;;
  availableMargin ← fetch_margin w data ;
  capital_check cfg data availableMargin ;;
  place_order w data instrumentToken.

(** The handler on a parsed body: the [try] block, and the [catch] block that
    logs a thrown error as a failed order.  The result is the state and the
    trace. *)
Definition webhook (cfg : config) (w : world) (data : payload) (st : state)
  : state * list event :=
  match webhook_try cfg w data st with
  | (Throw msg, st1, tr) =>
      (st1, tr ++ [LogWebhookOrder data "failed" (Some (ErrorMessage msg)) None])
  | (_, st1, tr) => (st1, tr)
  end.

(** The handler as Express calls it.  [req.body] is [undefined] ([None]) when
    [express.json()] did not parse the request, for instance a body that is
    not sent as JSON.  Reading [data.token] then throws; the [catch] block
    hands [req.body] to [logWebhookOrder], where reading [data.symbol] throws
    again inside that function's own [try], before anything is inserted; and
    no response is sent. *)
Definition webhook_request (cfg : config) (w : world) (body : option payload) (st : state)
  : state * list event :=
  match body with
  | Some data => webhook cfg w data st
  | None => (st, [])
  end.

(** *** The handler up to each check *)

(** Up to the position fetch: authenticated, well-formed, not a duplicate,
    acknowledged, token valid, instrument resolved. *)
Definition to_position_checks (cfg : config) (w : world) (data : payload) : M string :=
  authenticate cfg data ;;
  validate data ;;
  suppress_duplicate w data ;;
  emit (Respond 200 Received) ;;
  require_token w data ;;
  resolve_instrument data.

(** Up to the position-count check: the positions fetched and the directional
    check passed. *)
Definition to_count_check (cfg : config) (w : world) (data : payload)
  : M (string * list position) :=
  instrumentToken ← to_position_checks cfg w data ;
  positions ← getPositions w ;
  directional_check data (existingPosition positions (tradingSymbol data)) ;;
  mret (instrumentToken, positions).

(** Up to the quantity check. *)
Definition to_quantity_check (cfg : config) (w : world) (data : payload) : M string :=
  r ← to_count_check cfg w data ;
  position_count_check cfg data r.2 (existingPosition r.2 (tradingSymbol data)) ;;
  mret r.1.

(** Up to the capital check: quantity accepted, funds fetched and readable. *)
Definition to_capital_check (cfg : config) (w : world) (data : payload)
  : M (string * margin_value) :=
  instrumentToken ← to_quantity_check cfg w data ;
  quantity_check cfg data ;;
  availableMargin ← fetch_margin w data ;
  mret (instrumentToken, availableMargin).

(** Serving a sequence of webhook calls, one after the other. *)
Definition serve (cfg : config) (calls : list (world * payload)) (st : state) : state :=
  foldl (λ s call, (webhook cfg call.1 call.2 s).1) st calls.

(** *** Reading a trace *)

Definition is_get_funds (e : event) : bool :=
  match e with GetFunds => true | _ => false end.

Definition is_place_order (e : event) : bool :=
  match e with PlaceOrder _ _ _ => true | _ => false end.

Definition is_capital_or_margin_log (e : event) : bool :=
  match e with
  | LogWebhookOrder _ _ (Some (CapitalExceeds _ _)) _ => true
  | LogWebhookOrder _ _ (Some (InsufficientMargin _ _)) _ => true
  | _ => false
  end.

(** No event of the trace satisfies [p]. *)
Definition never (p : event → bool) (tr : list event) : Prop :=
  Forall (λ e, p e = false) tr.

Definition is_refresh (e : event) : bool :=
  match e with RefreshToken _ => true | _ => false end.

(** [quiet p m]: no run of [m] leaves an event satisfying [p]. *)
Definition quiet {A} (p : event → bool) (m : M A) : Prop :=
  ∀ st, never p (m st).2.

(** [keeps_tracker m]: no run of [m] changes [recentSignals]. *)
Definition keeps_tracker {A} (m : M A) : Prop :=
  ∀ st, recentSignals (m st).1.2 = recentSignals st.

(** The events of a successful refresh: the exchange, then the
    delete-then-insert of the stored pair. *)
Definition refresh_trace (w : world) (old_refresh access refresh : option string)
  : list event :=
  RefreshToken old_refresh :: DeleteTokens ::
  (if delete_tokens_ok w then [InsertTokens access refresh] else []).


(** ** Sample data *)

Definition sbin_nse : instrument :=
  Instrument (Some "NSE_EQ|INE062A01020") (Some "SBIN") (Some "NSE")%string.
Definition sbin_bse : instrument :=
  Instrument (Some "BSE_EQ|INE062A01020") (Some "SBIN") (Some "BSE")%string.
Definition gold_bse : instrument :=
  Instrument (Some "BSE_EQ|590095") (Some "GOLD") (Some "BSE")%string.
Definition gold_mcx : instrument :=
  Instrument (Some "MCX_FO|440939") (Some "GOLD") (Some "MCX")%string.

(** A catalog in which SBIN is listed on NSE and BSE, and GOLD on BSE and
    MCX; every download succeeds. *)
Definition sample_catalog : catalog_source :=
  CatalogSource
    (λ segment,
       if String.eqb segment "NSE" then Some [sbin_nse]
       else if String.eqb segment "BSE" then Some [sbin_bse; gold_bse]
       else if String.eqb segment "MCX" then Some [gold_mcx]
       else None)
    (λ _, None).

Definition sample_cfg : config := Config (Some "s3cret"%string) 10000 5 (Num 100).

(** 2023-11-14T22:13:20Z in milliseconds. *)
Definition t0 : Z := 1700000000000.

(** A running server: tokens loaded, catalog synced, no signal seen yet. *)
Definition sample_state : state :=
  State (Credentials (Some "access-1") (Some "refresh-1") (Some (refreshed_expiry t0)))%string
    ∅ (syncInstruments sample_catalog empty_directory).

(** The outside at clock reading [now]: the given positions, a margin of
    50000, and an order endpoint that accepts. *)
Definition sample_world (now : Z) (positions : list position) : world :=
  World now now None now true (Some positions) (FundsAvailable (Margin 50000))
    (OrderPlaced (Some "240101000000001"%string)).

(** A signal with the right token and a numeric quantity. *)
Definition signal (sym act : string) (qty : Z) (px : option Z) : payload :=
  Payload (Some "s3cret"%string) (Some sym) (Some act) (Some (Num qty)) px.

(** ** Further readings of the instrument directory *)

Definition has_key (k : string) (inst : instrument) : bool :=
  bool_decide (instrument_key inst = Some k).

(** Every instrument is filed under its own, non-empty, key and symbol. *)
Definition directory_consistent (d : directory) : Prop :=
  (∀ k inst, instrumentMap d !! k = Some inst →
     instrument_key inst = Some k ∧ k ≠ ""%string)
  ∧ (∀ s inst, symbolToInstrumentMap d !! s = Some inst →
       trading_symbol inst = Some s ∧ s ≠ ""%string).

(** ** Further readings of the duplicate tracker *)

(** The part of a tracker entry that can still suppress a signal at clock
    reading [now]: a truthy time less than the window ago. *)
Definition live (now : Z) (entry : option Z) : option Z :=
  match entry with
  | Some t => if bool_decide (t ≠ 0 ∧ now - t < DUPLICATE_SIGNAL_WINDOW) then Some t else None
  | None => None
  end.

(** Two trackers that agree on the entries still inside the window. *)
Definition same_live (now : Z) (m1 m2 : gmap string Z) : Prop :=
  ∀ k, live now (m1 !! k) = live now (m2 !! k).

(** ** Further readings of a trace *)

Definition is_respond (e : event) : bool :=
  match e with Respond _ _ => true | _ => false end.

Definition is_log (e : event) : bool :=
  match e with LogWebhookOrder _ _ _ _ => true | _ => false end.

Definition is_get_positions (e : event) : bool :=
  match e with GetPositions => true | _ => false end.

(** The number of events of a trace that satisfy [p]. *)
Definition count (p : event → bool) (tr : list event) : nat :=
  length (filter (λ e, p e = true) tr).

(** ** Symbolic runs *)

(** [wp m st Q]: the run of [m] from [st] satisfies [Q]. *)
Definition wp {A} (m : M A) (st : state) (Q : outcome A * state * list event → Prop)
  : Prop :=
  Q (m st).

(** The handler's [catch] block, applied to the run of the [try] block. *)
Definition catch_log (data : payload) (r : outcome () * state * list event)
  : state * list event :=
  match r.1.1 with
  | Throw msg =>
      (r.1.2, r.2 ++ [LogWebhookOrder data "failed" (Some (ErrorMessage msg)) None])
  | _ => (r.1.2, r.2)
  end.

(** The handler after its acknowledgement: everything that runs once the
    caller has been answered "received". *)
Definition background (cfg : config) (w : world) (data : payload) : M unit :=
  require_token w data ;;
  instrumentToken ← resolve_instrument data ;
  positions ← getPositions w ;
  let existing := existingPosition positions (tradingSymbol data) in
  directional_check data existing ;;
  position_count_check cfg data positions existing ;;
  quantity_check cfg data ;;
  availableMargin ← fetch_margin w data ;
  capital_check cfg data availableMargin ;;
  place_order w data instrumentToken.

(** The answer a call gets, read off the three tests of the handler's head. *)
Definition response_of (cfg : config) (w : world) (data : payload) (st : state) : event :=
  if negb (authorized cfg data) then Respond 401 Unauthorized
  else if negb (well_formed data) then Respond 400 InvalidPayload
  else if (isDuplicateSignal (now_signal w) (symbol_of data) (action_of data)
             (recentSignals st)).1
       then Respond 200 (Skipped "duplicate signal")
       else Respond 200 Received.

Definition is_success_log (e : event) : bool :=
  match e with
  | LogWebhookOrder _ status _ _ => String.eqb status "success"
  | _ => false
  end.

(** The log entry that follows an order request: success with the order id
    when the brokerage's answer is accepted and readable, failed with the
    error message otherwise. *)
Definition order_log (w : world) (data : payload) : event :=
  match order_response w with
  | OrderPlaced order_id => LogWebhookOrder data "success" None order_id
  | OrderRejected msg => LogWebhookOrder data "failed" (Some (ErrorMessage msg)) None
  | OrderPlacedWithoutData msg =>
      LogWebhookOrder data "failed" (Some (ErrorMessage msg)) None
  end.

(** The requests a run sends to the brokerage, token endpoint included. *)
Definition outbound_calls (tr : list event) : list event :=
  filter (λ e, is_refresh e || is_get_positions e || is_get_funds e || is_place_order e
               = true) tr.

(** At most one refresh, then positions, funds and order in that order, each
    at most once and none without the ones before it. *)
Definition in_call_order (calls : list event) : bool :=
  match calls with
  | RefreshToken _ :: rest | rest =>
      match rest with
      | [] | [GetPositions] | [GetPositions; GetFunds]
      | [GetPositions; GetFunds; PlaceOrder _ _ _] => true
      | _ => false
      end
  end.

(** ** Installing credentials: start-up load, OAuth callback, scheduled job *)

(** A row of the [auth_tokens] table. *)
Record token_row := TokenRow {
  access_token : option string;
  refresh_token : option string
}.

(** [loadTokensFromDB()], given the answer of the select ([None] when the
    storage reports an error or the call throws; a [null] data is the empty
    list) and the clock reading.  The newest row is the first. *)
Definition loadTokensFromDB (rows : option (list token_row)) (now : Z) : M bool :=
  match rows with
  | Some (row :: _) =>
      st ← get_state ;
      put_state (set_creds
        (Credentials (access_token row) (refresh_token row)
           (Some (refreshed_expiry now))) st) ;;
      mret true
  | _ => mret false
  end.

(** The answers of [GET /auth/callback]: status 400 "No auth code received",
    status 500 "Failed to obtain access token", status 500 "Auth Failed: ...",
    and the redirect to [returnUrl?token=...]. *)
Inductive callback_answer :=
  | NoAuthCode
  | NoAccessToken
  | AuthFailed
  | RedirectWithToken (return_url access : string).

(** [app.get("/auth/callback")], given the query's [code] and [state], the
    answer of the code exchange ([None] when the request throws) and the
    clock reading; [w] answers the storage. *)
Definition authCallback (w : world) (code query_state : option string)
    (exchange : option (option string * option string)) (now : Z) : M callback_answer :=
  let returnUrl := if truthy_str query_state then default ""%string query_state
                   else "http://localhost:3000"%string in
  if negb (truthy_str code) then mret NoAuthCode
  else
    match exchange with
    | None => mret AuthFailed
    | Some (access, refresh) =>
        if negb (truthy_str access) then mret NoAccessToken
        else
          st ← get_state ;
          put_state (set_creds
            (Credentials access refresh (Some (refreshed_expiry now))) st) ;;
          saveTokensToDB w access refresh ;;
          mret (RedirectWithToken returnUrl (default ""%string access))
    end.

(** The body of the token job of [scheduleCronJobs]. *)
Definition scheduledRefresh (w : world) : M unit :=
  st ← get_state ;
  if truthy_str (upstoxRefreshToken (creds st)) then
    ensureValidAccessToken w ;; mret ()
  else mret ().

(** The last clock reading, after credentials were installed at [now], at
    which they are not yet stale: 23 hours less 60 seconds, exclusive. *)
Definition fresh_until (now : Z) : Z := now + 23 * 60 * 60 * 1000 - 60000.

(** ** Instrument search *)

(** An object of [instrumentMap] as the search reads it: the instrument and
    two further fields of the catalog record. *)
Record catalog_entry := CatalogEntry {
  entry_instrument : instrument;
  name : option string;
  instrument_type : option string
}.

(** [hay.includes(needle)]. *)
Fixpoint includes (hay needle : string) : bool :=
  String.prefix needle hay
  || match hay with
     | EmptyString => false
     | String _ rest => includes rest needle
     end.

(** [s.startsWith(pre)]. *)
Definition startsWith (s pre : string) : bool := String.prefix pre s.

(** [Array.prototype.sort(cmp)] is stable; for a comparator that orders by
    a rank, as the one below, it returns the stable sorted arrangement, which
    inserting each element before the first one it does not come after
    computes. *)
Fixpoint insert_before {A} (cmp : A → A → Z) (x : A) (l : list A) : list A :=
  match l with
  | [] => [x]
  | y :: l' =>
      if bool_decide (cmp x y ≤ 0) then x :: y :: l'
      else y :: insert_before cmp x l'
  end.

Definition stable_sort {A} (cmp : A → A → Z) (l : list A) : list A :=
  foldr (insert_before cmp) [] l.

(** [field?.toUpperCase() || ""], for [toUpperCase] the function
    [String.prototype.toUpperCase]. *)
Definition upper (toUpperCase : string → string) (field : option string) : string :=
  match field with
  | Some s => toUpperCase s
  | None => ""
  end.

(** The callback of [filter]; [query] and [type] are already upper-cased. *)
Definition matches (toUpperCase : string → string) (query : string)
    (type : option string) (inst : catalog_entry) : bool :=
  let tradingSymbol := upper toUpperCase (trading_symbol (entry_instrument inst)) in
  let name := upper toUpperCase (name inst) in
  let matchesQuery := includes tradingSymbol query || includes name query in
  if negb matchesQuery then false
  else if truthy_str type then
    let instType := upper toUpperCase (instrument_type inst) in
    if bool_decide (type = Some "EQUITY"%string) then String.eqb instType "EQUITY"
    else if bool_decide (type = Some "FUTURE"%string) then startsWith instType "FUT"
    else if bool_decide (type = Some "OPTION"%string) then startsWith instType "OPT"
    else true
  else true.

(** The comparator of [sort]. *)
Definition by_relevance (toUpperCase : string → string) (query : string)
    (a b : catalog_entry) : Z :=
  let aSymbol := upper toUpperCase (trading_symbol (entry_instrument a)) in
  let bSymbol := upper toUpperCase (trading_symbol (entry_instrument b)) in
  if String.eqb aSymbol query && negb (String.eqb bSymbol query) then -1
  else if String.eqb bSymbol query && negb (String.eqb aSymbol query) then 1
  else if startsWith aSymbol query && negb (startsWith bSymbol query) then -1
  else if startsWith bSymbol query && negb (startsWith aSymbol query) then 1
  else if bool_decide (instrument_type a = Some "EQUITY"%string)
          && negb (bool_decide (instrument_type b = Some "EQUITY"%string)) then -1
  else if bool_decide (instrument_type b = Some "EQUITY"%string)
          && negb (bool_decide (instrument_type a = Some "EQUITY"%string)) then 1
  else 0.

(** [app.get("/api/search")]: the array sent as the answer, given the
    query's [q] and [type] and the objects [Object.values(instrumentMap)]
    enumerates, in its order. *)
Definition search (toUpperCase : string → string) (q type : option string)
    (values : list catalog_entry) : list catalog_entry :=
  let query := toUpperCase <$> q in
  let type := toUpperCase <$> type in
  if negb (truthy_str query) || (String.length (default ""%string query) <? 2)%nat
  then []
  else
    let query := default ""%string query in
    take 50 (stable_sort (by_relevance toUpperCase query)
               (filter (λ inst, matches toUpperCase query type inst = true) values)).

(** The place of an entry in the comparator's order: exact symbol, symbol
    prefix, equity, each deciding before the next. *)
Definition rank (toUpperCase : string → string) (query : string)
    (a : catalog_entry) : Z :=
  let aSymbol := upper toUpperCase (trading_symbol (entry_instrument a)) in
  (if String.eqb aSymbol query then 0 else 4)
  + (if startsWith aSymbol query then 0 else 2)
  + (if bool_decide (instrument_type a = Some "EQUITY"%string) then 0 else 1).

(** Upper-casing of the letters a to z, for the examples. *)
Definition ascii_upper (c : ascii) : ascii :=
  let n := nat_of_ascii c in
  if ((97 <=? n) && (n <=? 122))%nat then ascii_of_nat (n - 32) else c.

Fixpoint string_upper (s : string) : string :=
  match s with
  | EmptyString => EmptyString
  | String c rest => String (ascii_upper c) (string_upper rest)
  end.

Definition sample_values : list catalog_entry :=
  [ CatalogEntry (Instrument (Some "NSE_FO|1") (Some "SBIN24DECFUT") (Some "NSE_FO"))
      (Some "State Bank of India") (Some "FUT");
    CatalogEntry (Instrument (Some "NSE_EQ|2") (Some "SBICARD") (Some "NSE"))
      (Some "SBI Cards") (Some "EQUITY");
    CatalogEntry (Instrument (Some "NSE_EQ|3") (Some "SBIN") (Some "NSE"))
      (Some "State Bank of India") (Some "EQUITY");
    CatalogEntry (Instrument (Some "NSE_EQ|4") (Some "TCS") (Some "NSE"))
      (Some "Tata Consultancy") (Some "EQUITY") ]%string.

Global Instance catalog_entry_eq_dec : EqDecision catalog_entry.
Proof. solve_decision. Defined.

(** Fifty equities named SBIN and a future on it, enumerated last. *)
Definition crowded_values : list catalog_entry :=
  replicate 50 (CatalogEntry (Instrument (Some "NSE_EQ|3") (Some "SBIN") (Some "NSE"))
                  (Some "State Bank of India") (Some "EQUITY"))
  ++ [CatalogEntry (Instrument (Some "NSE_FO|1") (Some "SBIN24DECFUT") (Some "NSE_FO"))
        (Some "State Bank of India") (Some "FUT")]%string.

(** ** The other two instrument maps *)

(** [a || b] on strings that may be absent. *)
Definition js_or (a b : option string) : option string :=
  if truthy_str a then a else b.

(** The second server of [server.js]: [instrumentMap] maps a trading symbol
    to an instrument key and is filled from the rows of four compressed CSV
    files. *)
Module csv.

Record row := Row {
  trading_symbol : option string;
  instrument_key : option string
}.

(** [parser.on("data", (row) => ...)]. *)
Definition on_data (m : gmap string string) (r : row) : gmap string string :=
  let symbol := trading_symbol r in
  let key := instrument_key r in
  if truthy_str symbol && truthy_str key
  then <[default ""%string symbol := default ""%string key]> m
  else m.

Definition segments : list string := ["NSE"; "NFO"; "MCX"; "CDS"]%string.

(** [syncInstruments()]; [rows_of segment] are the rows the parser emits for
    the segment before its stream ends or fails (none when the download
    fails). *)
Definition syncInstruments (rows_of : string → list row) (m : gmap string string)
    : gmap string string :=
  foldl (λ m segment, foldl on_data m (rows_of segment)) m segments.

(** [getInstrumentToken(symbol)]; [None] is [null]. *)
Definition getInstrumentToken (m : gmap string string) (symbol : string) : option string :=
  let parts := split ":"%char symbol in
  let tradingSymbol :=
    if bool_decide (1 < length parts)%nat then parts !! 1%nat else parts !! 0%nat in
  let token := m !! property_key tradingSymbol in
  if negb (truthy_str token) then None else token.

(** The rows one run reads, in the order it reads them. *)
Definition synced_rows (rows_of : string → list row) : list row :=
  concat (map rows_of segments).

(** The row is stored under the symbol. *)
Definition lists (s : string) (r : row) : bool :=
  bool_decide (trading_symbol r = Some s) && truthy_str (instrument_key r).

End csv.

(** The server of [part_000]: [instrumentMap] is filled from one local file
    and keeps the entries of the NSE only. *)
Module legacy.

Record item := Item {
  trading_symbol : option string;
  symbol : option string;
  instrument_token : option string;
  instrument_key : option string;
  exchange : option string
}.

(** The body of [instruments.forEach((item) => ...)]. *)
Definition store (m : gmap string string) (it : item) : gmap string string :=
  let symbol := js_or (trading_symbol it) (symbol it) in
  let token := js_or (instrument_token it) (instrument_key it) in
  if truthy_str symbol && truthy_str token && strict_eq (exchange it) (Some "NSE"%string)
  then <[default ""%string symbol := default ""%string token]> m
  else m.

(** [loadInstruments()]; [file] is the parsed [./instruments/NSE.json],
    [None] when it cannot be read or parsed. *)
Definition loadInstruments (file : option (list item)) (m : gmap string string)
    : gmap string string :=
  match file with
  | Some instruments => foldl store m instruments
  | None => m
  end.

(** [getInstrumentToken(symbol)]; [None] is [null]. *)
Definition getInstrumentToken (m : gmap string string) (symbol : string) : option string :=
  let tradingSymbol := split ":"%char symbol !! 1%nat in
  let token := m !! property_key tradingSymbol in
  if negb (truthy_str token) then None else token.

(** The item is stored under the symbol. *)
Definition lists (s : string) (it : item) : bool :=
  bool_decide (js_or (trading_symbol it) (symbol it) = Some s)
  && truthy_str (js_or (instrument_token it) (instrument_key it))
  && strict_eq (exchange it) (Some "NSE"%string).

End legacy.

(** A symbol listed on two segments of the second server. *)
Definition sample_rows (segment : string) : list csv.row :=
  if String.eqb segment "NSE" then
    [csv.Row (Some "SBIN") (Some "NSE_EQ|INE062A01020"); csv.Row (Some "GOLD") (Some "NSE_EQ|GOLD")]%string
  else if String.eqb segment "MCX" then
    [csv.Row (Some "GOLD") (Some "MCX_FO|GOLD")]%string
  else [].

Definition sample_file : list legacy.item :=
  [ legacy.Item (Some "SBIN") None None (Some "NSE_EQ|INE062A01020") (Some "NSE");
    legacy.Item None (Some "GOLD") (Some "4711") None (Some "MCX") ]%string.

(** * Properties *)

(** ** C10: splitting symbols *)

Lemma split_nonempty sep s : split sep s ≠ [].
Proof. destruct s as [|c s]; simpl; [done|]. destruct (Ascii.eqb c sep); [done|]. by destruct (split sep s). Qed.

Lemma split_without_separator sep s : contains sep s = false → split sep s = [s].
Proof.
  induction s as [|c s IH]; simpl; [done|].
  intros [Hc Hs]%orb_false_iff. rewrite Hc, (IH Hs). done.
Qed.

Lemma split_qualified sep x s :
  contains sep x = false → split sep (x +:+ String sep s) = x :: split sep s.
Proof.
  induction x as [|c x IH]; simpl.
  - intros _. by rewrite Ascii.eqb_refl.
  - intros [Hc Hx]%orb_false_iff. rewrite Hc, (IH Hx). done.
Qed.

Lemma lookup_symbol_bare s : contains ":" s = false → lookup_symbol s = Some s.
Proof. intros H. unfold lookup_symbol. by rewrite (split_without_separator _ _ H). Qed.

Lemma lookup_symbol_qualified x s :
  contains ":" x = false → contains ":" s = false →
  lookup_symbol (x +:+ ":" +:+ s) = Some s.
Proof.
  intros Hx Hs. unfold lookup_symbol.
  change (x +:+ ":" +:+ s) with (x +:+ String ":" s).
  rewrite (split_qualified _ _ _ Hx), (split_without_separator _ _ Hs). done.
Qed.

(** C10.  For an exchange prefix [x] and a bare trading symbol [s] (neither
    contains the separator), [getInstrumentToken] answers the same for
    ["x:s"] and for ["s"]; when [s] is in the by-symbol map, both are the
    identifier of the instrument stored for [s]. *)
Theorem getInstrumentToken_qualified_eq_bare (d : directory) (x s : string) :
  contains ":" x = false → contains ":" s = false →
  getInstrumentToken d (x +:+ ":" +:+ s) = getInstrumentToken d s
  ∧ (∀ inst, symbolToInstrumentMap d !! s = Some inst →
       getInstrumentToken d (x +:+ ":" +:+ s) = instrument_key inst
       ∧ getInstrumentToken d s = instrument_key inst).
Proof.
  intros Hx Hs. unfold getInstrumentToken.
  rewrite (lookup_symbol_qualified _ _ Hx Hs), (lookup_symbol_bare _ Hs). simpl.
  split; [done|]. intros inst ->. done.
Qed.

(** "NSE:SBIN" and "SBIN" against the synced sample catalog. *)
Lemma getInstrumentToken_qualified_eq_bare_witness :
  let d := syncInstruments sample_catalog empty_directory in
  getInstrumentToken d "NSE:SBIN" = getInstrumentToken d "SBIN"
  ∧ getInstrumentToken d "SBIN" = Some "NSE_EQ|INE062A01020"%string.
Proof.
  pose proof (getInstrumentToken_qualified_eq_bare
                (syncInstruments sample_catalog empty_directory) "NSE" "SBIN"
                eq_refl eq_refl) as [Heq Hkey].
  split; [exact Heq|]. exact (proj2 (Hkey sbin_nse eq_refl)).
Defined.

(** ** C6: instrument sync *)

Lemma merge_instrument_by_symbol d e s :
  s ≠ ""%string →
  symbolToInstrumentMap (merge_instrument d e) !! s =
    if names_symbol s e then
      if is_nse e then Some e
      else match symbolToInstrumentMap d !! s with Some i => Some i | None => Some e end
    else symbolToInstrumentMap d !! s.
Proof.
  intros Hs. unfold merge_instrument, names_symbol, is_nse. simpl.
  destruct (trading_symbol e) as [t|] eqn:Ht.
  - destruct (decide (t = s)) as [->|Hne].
    + rewrite (bool_decide_eq_true_2 (Some s = Some s)) by done.
      assert (String.eqb s "" = false) as -> by by apply String.eqb_neq.
      simpl. destruct (strict_eq (exchange e) (Some "NSE"%string)).
      * rewrite orb_true_r. by rewrite lookup_insert_eq.
      * rewrite orb_false_r. destruct (symbolToInstrumentMap d !! s) as [i|] eqn:Hd.
        -- rewrite bool_decide_eq_true_2 by eauto. simpl. done.
        -- rewrite bool_decide_eq_false_2 by (intros [? ?]; done). simpl.
           by rewrite lookup_insert_eq.
    + rewrite (bool_decide_eq_false_2 (Some t = Some s)) by congruence.
      repeat case_match; try done; by rewrite lookup_insert_ne.
  - by rewrite bool_decide_eq_false_2.
Qed.

Lemma foldl_merge_by_symbol es d s :
  s ≠ ""%string →
  symbolToInstrumentMap (foldl merge_instrument d es) !! s =
    first_writer_nse_preferred s (symbolToInstrumentMap d !! s) es.
Proof.
  intros Hs. revert d. induction es as [|e es IH]; intros d; simpl.
  - unfold first_writer_nse_preferred. simpl. by destruct (_ !! s).
  - rewrite IH, (merge_instrument_by_symbol _ _ _ Hs).
    unfold first_writer_nse_preferred.
    destruct (names_symbol s e) eqn:Hn.
    + destruct (is_nse e) eqn:Hx.
      * rewrite (filter_cons_True _ e) by (by rewrite Hn, Hx).
        rewrite last_cons. by destruct (last _).
      * rewrite (filter_cons_False _ e) by (rewrite Hn, Hx; simpl; done).
        destruct (last _); [done|].
        rewrite (filter_cons_True _ e) by done. simpl.
        by destruct (symbolToInstrumentMap d !! s).
    + rewrite (filter_cons_False _ e) by (rewrite Hn; simpl; done).
      rewrite (filter_cons_False _ e) by (rewrite Hn; done). done.
Qed.

Lemma syncSegment_entries src d segment :
  syncSegment src d segment = foldl merge_instrument d (segment_entries src segment).
Proof.
  unfold syncSegment, segment_entries.
  destruct (remote_catalog src segment); [done|].
  by destruct (local_catalog src segment).
Qed.

Lemma syncInstruments_entries src d :
  syncInstruments src d = foldl merge_instrument d (synced_entries src).
Proof.
  unfold syncInstruments, synced_entries, segments. simpl.
  rewrite !foldl_app, !syncSegment_entries. done.
Qed.

(** C6 (as the code has it).  After a sync, the by-symbol map holds for every
    non-empty symbol the last NSE entry merged for it; when no NSE entry was
    merged, the entry the map held before; and otherwise the first entry
    merged for it: among entries that are not NSE the first writer is kept. *)
Theorem syncInstruments_first_writer_nse_preferred
    (src : catalog_source) (d : directory) (s : string) :
  s ≠ ""%string →
  symbolToInstrumentMap (syncInstruments src d) !! s =
    first_writer_nse_preferred s (symbolToInstrumentMap d !! s) (synced_entries src).
Proof. intros Hs. rewrite syncInstruments_entries. by apply foldl_merge_by_symbol. Qed.

(** GOLD in the sample catalog. *)
Lemma syncInstruments_first_writer_nse_preferred_witness :
  symbolToInstrumentMap (syncInstruments sample_catalog empty_directory) !! "GOLD"%string =
    first_writer_nse_preferred "GOLD" None (synced_entries sample_catalog).
Proof.
  apply (syncInstruments_first_writer_nse_preferred sample_catalog empty_directory "GOLD").
  discriminate.
Defined.

(** C6 as stated fails for a symbol listed by two segments neither of which
    is NSE: GOLD is merged from BSE and then from MCX, the last writer is the
    MCX entry, and the map keeps the BSE entry.  SBIN, listed on NSE and BSE,
    resolves to NSE under either reading. *)
Lemma first_non_nse_entry_is_kept :
  synced_entries sample_catalog = [sbin_nse; sbin_bse; gold_bse; gold_mcx]
  ∧ symbolToInstrumentMap (syncInstruments sample_catalog empty_directory) !! "GOLD"%string
      = Some gold_bse
  ∧ spec_last_writer_nse_preferred "GOLD" (synced_entries sample_catalog) = Some gold_mcx
  ∧ gold_bse ≠ gold_mcx
  ∧ symbolToInstrumentMap (syncInstruments sample_catalog empty_directory) !! "SBIN"%string
      = spec_last_writer_nse_preferred "SBIN" (synced_entries sample_catalog).
Proof. repeat split; try (vm_compute; reflexivity). discriminate. Qed.

(** ** Running the handler monad *)

Lemma bind_run_next {A B} (m : M A) (f : A → M B) st a st1 tr1 :
  m st = (Next a, st1, tr1) →
  (m ≫= f) st = (let '(o, st2, tr2) := f a st1 in (o, st2, tr1 ++ tr2)).
Proof. intros H. unfold mbind, M_bind. rewrite H. by destruct (f a st1) as [[? ?] ?]. Qed.

Lemma bind_run_return {A B} (m : M A) (f : A → M B) st st1 tr1 :
  m st = (Return, st1, tr1) → (m ≫= f) st = (Return, st1, tr1).
Proof. intros H. unfold mbind, M_bind. by rewrite H. Qed.

Lemma bind_assoc_run {A B C} (m : M A) (f : A → M B) (g : B → M C) st :
  ((m ≫= f) ≫= g) st = (m ≫= (λ a, f a ≫= g)) st.
Proof.
  unfold mbind, M_bind. destruct (m st) as [[[a| |msg] st1] tr1]; [|done..].
  destruct (f a st1) as [[[b| |msg] st2] tr2]; [|done..].
  destruct (g b st2) as [[o st3] tr3]. by rewrite app_assoc.
Qed.

Lemma bind_ext_run {A B} (m : M A) (f g : A → M B) st :
  (∀ a st1, f a st1 = g a st1) → (m ≫= f) st = (m ≫= g) st.
Proof.
  intros H. unfold mbind, M_bind. destruct (m st) as [[[a| |msg] st1] tr1]; [|done..].
  by rewrite H.
Qed.

Lemma ret_bind_run {A B} (a : A) (f : A → M B) st : (mret a ≫= f) st = f a st.
Proof. unfold mbind, M_bind, mret, M_ret. by destruct (f a st) as [[? ?] ?]. Qed.

(** Moves the continuation of a prefix of the handler under its binds. *)
Ltac under_binds :=
  repeat first
    [ rewrite bind_assoc_run; apply bind_ext_run; intros
    | rewrite ret_bind_run ].

(** ** The handler is each of its prefixes followed by the rest *)

Lemma webhook_try_from_position_checks cfg w data st :
  webhook_try cfg w data st =
  (instrumentToken ← to_position_checks cfg w data ;
   positions ← getPositions w ;
   let existing := existingPosition positions (tradingSymbol data) in
   directional_check data existing ;;
   position_count_check cfg data positions existing ;;
   quantity_check cfg data ;;
   availableMargin ← fetch_margin w data ;
   capital_check cfg data availableMargin ;;
   place_order w data instrumentToken) st.
Proof. unfold webhook_try, to_position_checks. symmetry. under_binds. done. Qed.

Lemma webhook_try_from_count_check cfg w data st :
  webhook_try cfg w data st =
  (r ← to_count_check cfg w data ;
   position_count_check cfg data r.2 (existingPosition r.2 (tradingSymbol data)) ;;
   quantity_check cfg data ;;
   availableMargin ← fetch_margin w data ;
   capital_check cfg data availableMargin ;;
   place_order w data r.1) st.
Proof.
  rewrite webhook_try_from_position_checks. unfold to_count_check.
  symmetry. under_binds. done.
Qed.

Lemma webhook_try_from_quantity_check cfg w data st :
  webhook_try cfg w data st =
  (instrumentToken ← to_quantity_check cfg w data ;
   quantity_check cfg data ;;
   availableMargin ← fetch_margin w data ;
   capital_check cfg data availableMargin ;;
   place_order w data instrumentToken) st.
Proof.
  rewrite webhook_try_from_count_check. unfold to_quantity_check.
  symmetry. under_binds. done.
Qed.

Lemma webhook_try_from_capital_check cfg w data st :
  webhook_try cfg w data st =
  (r ← to_capital_check cfg w data ;
   capital_check cfg data r.2 ;;
   place_order w data r.1) st.
Proof.
  rewrite webhook_try_from_quantity_check. unfold to_capital_check.
  symmetry. under_binds. done.
Qed.

(** ** Which events a computation can leave in the trace *)

Lemma quiet_bind_run {A B} p (m : M A) (f : A → M B) :
  quiet p m →
  (∀ a st st1 tr1, m st = (Next a, st1, tr1) → never p (f a st1).2) →
  quiet p (m ≫= f).
Proof.
  intros Hm Hf st. specialize (Hm st). unfold mbind, M_bind.
  destruct (m st) as [[[a| |msg] st1] tr1] eqn:Hrun; simpl in *; [|done..].
  specialize (Hf a st st1 tr1 Hrun).
  destruct (f a st1) as [[o st2] tr2]; simpl in *.
  unfold never in *. by apply Forall_app.
Qed.

Lemma quiet_bind {A B} p (m : M A) (f : A → M B) :
  quiet p m → (∀ a, quiet p (f a)) → quiet p (m ≫= f).
Proof. intros Hm Hf. apply quiet_bind_run; [done|]. intros a _ st1 _ _. apply Hf. Qed.

Lemma quiet_ret {A} p (a : A) : quiet p (mret a : M A).
Proof. intros st. constructor. Qed.

Lemma quiet_stop {A} p : quiet p (stop : M A).
Proof. intros st. constructor. Qed.

Lemma quiet_throw {A} p msg : quiet p (throw msg : M A).
Proof. intros st. constructor. Qed.

Lemma quiet_get_state p : quiet p get_state.
Proof. intros st. constructor. Qed.

Lemma quiet_put_state p st' : quiet p (put_state st').
Proof. intros st. constructor. Qed.

Lemma quiet_emit p e : p e = false → quiet p (emit e).
Proof. intros H st. by repeat constructor. Qed.

(** Decomposes a computation into its binds and branches. *)
Ltac quiet_step :=
  first
    [ apply quiet_ret | apply quiet_stop | apply quiet_throw
    | apply quiet_get_state | apply quiet_put_state
    | apply quiet_emit; reflexivity
    | apply quiet_bind; [|intros ?]
    | case_match ].

Ltac solve_quiet := repeat quiet_step.

Ltac unfold_stages :=
  unfold to_capital_check, to_quantity_check, to_count_check, to_position_checks,
    authenticate, validate, suppress_duplicate, require_token, resolve_instrument,
    getPositions, directional_check, position_count_check, quantity_check,
    fetch_margin, capital_check, place_order, ensureValidAccessToken,
    saveTokensToDB, logWebhookOrder.

Lemma to_position_checks_never_funds cfg w data :
  quiet is_get_funds (to_position_checks cfg w data).
Proof. unfold_stages. solve_quiet. Qed.

Lemma to_position_checks_never_order cfg w data :
  quiet is_place_order (to_position_checks cfg w data).
Proof. unfold_stages. solve_quiet. Qed.

Lemma to_quantity_check_never_funds cfg w data :
  quiet is_get_funds (to_quantity_check cfg w data).
Proof. unfold_stages. solve_quiet. Qed.

Lemma to_quantity_check_never_order cfg w data :
  quiet is_place_order (to_quantity_check cfg w data).
Proof. unfold_stages. solve_quiet. Qed.

Lemma to_capital_check_never_order cfg w data :
  quiet is_place_order (to_capital_check cfg w data).
Proof. unfold_stages. solve_quiet. Qed.

Lemma to_capital_check_never_capital_log cfg w data :
  quiet is_capital_or_margin_log (to_capital_check cfg w data).
Proof. unfold_stages. solve_quiet. Qed.

(** ** From the [try] block to the handler *)

Lemma webhook_of_return cfg w data st st1 tr :
  webhook_try cfg w data st = (Return, st1, tr) → webhook cfg w data st = (st1, tr).
Proof. intros H. unfold webhook. by rewrite H. Qed.

Lemma webhook_never p cfg w data st :
  (∀ msg, p (LogWebhookOrder data "failed" (Some (ErrorMessage msg)) None) = false) →
  never p (webhook_try cfg w data st).2 → never p (webhook cfg w data st).2.
Proof.
  intros Hp H. unfold webhook.
  destruct (webhook_try cfg w data st) as [[[[]| |msg] st1] tr]; simpl in *; try done.
  apply Forall_app. split; [done|]. repeat constructor. apply Hp.
Qed.

(** ** C1: the shared secret *)

Lemma authenticate_rejects cfg data st :
  authorized cfg data = false →
  authenticate cfg data st = (Return, st, [Respond 401 Unauthorized]).
Proof.
  unfold authorized, authenticate. intros H.
  rewrite <- negb_andb, H. reflexivity.
Qed.

Lemma authenticate_accepts cfg data st :
  authorized cfg data = true → authenticate cfg data st = (Next (), st, []).
Proof.
  unfold authorized, authenticate. intros H.
  rewrite <- negb_andb, H. reflexivity.
Qed.

Lemma unauthorized_of_token cfg data :
  token data = None ∨ token data ≠ WEBHOOK_SECRET cfg → authorized cfg data = false.
Proof.
  unfold authorized, strict_eq. intros [->|Hne]; [done|].
  rewrite (bool_decide_eq_false_2 _ Hne). apply andb_false_r.
Qed.

(** On a parsed body, a call whose token is absent or differs from the
    configured secret is answered 401 and does nothing else: the trace is
    that single response (no log entry, no refresh, no position or funds
    fetch, no order) and the state, duplicate tracker included, is
    unchanged. *)
Lemma unauthorized_webhook_only_responds_401
    (cfg : config) (w : world) (data : payload) (st : state) :
  token data = None ∨ token data ≠ WEBHOOK_SECRET cfg →
  webhook cfg w data st = (st, [Respond 401 Unauthorized]).
Proof.
  intros H%unauthorized_of_token. apply webhook_of_return.
  unfold webhook_try. by rewrite (bind_run_return _ _ _ _ _ (authenticate_rejects _ _ st H)).
Qed.

(** A call with a guessed token against the sample server. *)
Lemma guessed_token_only_responds_401 :
  let d := Payload (Some "guess"%string) (Some "NSE:SBIN"%string) (Some "BUY"%string)
             (Some (Num 10)) None in
  webhook sample_cfg (sample_world t0 []) d sample_state =
    (sample_state, [Respond 401 Unauthorized]).
Proof.
  apply (unauthorized_webhook_only_responds_401 sample_cfg (sample_world t0 [])
           (Payload (Some "guess"%string) (Some "NSE:SBIN"%string) (Some "BUY"%string)
              (Some (Num 10)) None) sample_state).
  right. discriminate.
Qed.

(** C1 at the failing input.  A request whose body was not parsed carries no
    token, so it is a call whose token is absent.  The handler sends it no
    response, neither the 401 nor any other, whatever the secret is; it has
    no other effect either.  The same request with a parsed body that lacks
    the token is answered 401. *)
Theorem unparsed_body_is_never_answered (cfg : config) (w : world) (st : state) :
  webhook_request cfg w None st = (st, [])
  ∧ (Respond 401 Unauthorized ∉ (webhook_request cfg w None st).2)
  ∧ (∀ sym act qty px,
       webhook_request cfg w (Some (Payload None sym act qty px)) st
       = (st, [Respond 401 Unauthorized])).
Proof.
  split; [done|]. split; [by apply not_elem_of_nil|].
  intros sym act qty px. apply unauthorized_webhook_only_responds_401. by left.
Qed.

(** ** C2: the duplicate tracker *)

Lemma isDuplicateSignal_within_window now sym act recent t :
  recent !! signal_key sym act = Some t → t ≠ 0 →
  now - t < DUPLICATE_SIGNAL_WINDOW →
  isDuplicateSignal now sym act recent = (true, recent).
Proof.
  intros Hk Ht Hw. unfold isDuplicateSignal. fold (signal_key sym act). rewrite Hk. simpl.
  rewrite (proj2 (Z.eqb_neq t 0) Ht). simpl.
  by rewrite bool_decide_eq_true_2.
Qed.

Lemma isDuplicateSignal_records_accepted now sym act recent :
  (isDuplicateSignal now sym act recent).1 = false →
  (isDuplicateSignal now sym act recent).2 !! signal_key sym act = Some now.
Proof.
  unfold isDuplicateSignal. fold (signal_key sym act).
  case_match; [done|]. intros _. simpl. case_match.
  - apply map_lookup_filter_Some. split; [by rewrite lookup_insert_eq|].
    simpl. unfold DUPLICATE_SIGNAL_WINDOW. lia.
  - by rewrite lookup_insert_eq.
Qed.

(** A later call, for any pair, leaves an entry that is still inside the
    window where it is. *)
Lemma isDuplicateSignal_keeps_recent now sym act recent k t :
  recent !! k = Some t → t ≠ 0 → now - t < DUPLICATE_SIGNAL_WINDOW →
  (isDuplicateSignal now sym act recent).2 !! k = Some t.
Proof.
  intros Hk Ht Hw. destruct (decide (signal_key sym act = k)) as [<-|Hne].
  - by rewrite (isDuplicateSignal_within_window _ _ _ _ _ Hk Ht Hw).
  - unfold isDuplicateSignal. fold (signal_key sym act).
    case_match; [done|]. simpl. case_match.
    + apply map_lookup_filter_Some. split; [by rewrite lookup_insert_ne|]. simpl. lia.
    + by rewrite lookup_insert_ne.
Qed.

Lemma validate_accepts data st :
  well_formed data = true → validate data st = (Next (), st, []).
Proof.
  unfold well_formed, validate. intros H.
  rewrite <- !negb_andb, H. reflexivity.
Qed.

Lemma validate_rejects data st :
  well_formed data = false → validate data st = (Return, st, [Respond 400 InvalidPayload]).
Proof.
  unfold well_formed, validate. intros H.
  rewrite <- !negb_andb, H. reflexivity.
Qed.

Lemma keeps_tracker_bind {A B} (m : M A) (f : A → M B) :
  keeps_tracker m → (∀ a, keeps_tracker (f a)) → keeps_tracker (m ≫= f).
Proof.
  intros Hm Hf st. specialize (Hm st). unfold mbind, M_bind.
  destruct (m st) as [[[a| |msg] st1] tr1]; simpl in *; [|done..].
  specialize (Hf a st1). destruct (f a st1) as [[o st2] tr2]; simpl in *. congruence.
Qed.

Lemma ensureValidAccessToken_keeps_tracker w : keeps_tracker (ensureValidAccessToken w).
Proof.
  intros st. unfold ensureValidAccessToken, saveTokensToDB, get_state, put_state, emit.
  unfold mbind, M_bind, mret, M_ret. simpl.
  repeat case_match; simplify_eq; done.
Qed.

Lemma keeps_tracker_after_duplicate_check cfg w data :
  keeps_tracker
    (emit (Respond 200 Received) ;;
     require_token w data ;;
     instrumentToken ← resolve_instrument data ;
     positions ← getPositions w ;
     let existing := existingPosition positions (tradingSymbol data) in
     directional_check data existing ;;
     position_count_check cfg data positions existing ;;
     quantity_check cfg data ;;
     availableMargin ← fetch_margin w data ;
     capital_check cfg data availableMargin ;;
     place_order w data instrumentToken).
Proof.
  unfold require_token, resolve_instrument, getPositions, directional_check,
    position_count_check, quantity_check, fetch_margin, capital_check, place_order,
    logWebhookOrder.
  repeat first
    [ apply ensureValidAccessToken_keeps_tracker
    | apply keeps_tracker_bind; [|intros ?]
    | case_match
    | (intros ?; reflexivity) ].
Qed.

Lemma webhook_tracker cfg w data st :
  recentSignals (webhook cfg w data st).1 =
    if authorized cfg data && well_formed data
    then (isDuplicateSignal (now_signal w) (symbol_of data) (action_of data)
            (recentSignals st)).2
    else recentSignals st.
Proof.
  assert (∀ r : outcome unit * state * list event,
    (match r with
     | (Throw msg, st1, tr) =>
         (st1, tr ++ [LogWebhookOrder data "failed" (Some (ErrorMessage msg)) None])
     | (_, st1, tr) => (st1, tr)
     end).1 = r.1.2) as Hcatch by (by intros [[[[]| |?] ?] ?]).
  unfold webhook. rewrite Hcatch. clear Hcatch. unfold webhook_try.
  destruct (authorized cfg data) eqn:Ha; simpl.
  2:{ by rewrite (bind_run_return _ _ _ _ _ (authenticate_rejects _ _ st Ha)). }
  rewrite (bind_run_next _ _ _ _ _ _ (authenticate_accepts _ _ st Ha)).
  destruct (well_formed data) eqn:Hv; simpl.
  2:{ rewrite (bind_run_return _ _ _ _ _ (validate_rejects _ st Hv)). done. }
  rewrite (bind_run_next _ _ _ _ _ _ (validate_accepts _ st Hv)).
  match goal with |- context [ (suppress_duplicate w data ≫= ?f) st ] =>
    set (rest := f) end.
  assert (keeps_tracker (rest ())) as Hrest
    by apply keeps_tracker_after_duplicate_check.
  clearbody rest.
  unfold suppress_duplicate, get_state, put_state, mbind, M_bind. simpl.
  destruct (isDuplicateSignal _ _ _ _) as [[|] recent1]; simpl; [done|].
  specialize (Hrest (set_recentSignals recent1 st)).
  destruct (rest () (set_recentSignals recent1 st)) as [[o st2] tr2]. done.
Qed.

Lemma serve_keeps_recent cfg calls st k t limit :
  Forall (λ call : world * payload, now_signal call.1 ≤ limit) calls →
  recentSignals st !! k = Some t → t ≠ 0 → limit - t < DUPLICATE_SIGNAL_WINDOW →
  recentSignals (serve cfg calls st) !! k = Some t.
Proof.
  intros Hcalls. revert st. induction Hcalls as [|[w d] calls Hle _ IH]; intros st Hk Ht Hw.
  - done.
  - unfold serve. simpl. apply IH; [|done..].
    rewrite webhook_tracker. case_match; [|done].
    apply isDuplicateSignal_keeps_recent; [done..|]. simpl in Hle. lia.
Qed.

Lemma webhook_skips_duplicate cfg w data st t :
  authorized cfg data = true → well_formed data = true →
  recentSignals st !! signal_key (symbol_of data) (action_of data) = Some t →
  t ≠ 0 → now_signal w - t < DUPLICATE_SIGNAL_WINDOW →
  webhook cfg w data st =
    (st, [LogWebhookOrder data "skipped" (Some DuplicateSignal) None;
          Respond 200 (Skipped "duplicate signal")]).
Proof.
  intros Ha Hv Hk Ht Hw. apply webhook_of_return. unfold webhook_try.
  rewrite (bind_run_next _ _ _ _ _ _ (authenticate_accepts _ _ st Ha)).
  rewrite (bind_run_next _ _ _ _ _ _ (validate_accepts _ st Hv)).
  unfold suppress_duplicate, get_state, put_state, logWebhookOrder, emit, stop.
  unfold mbind, M_bind. simpl.
  rewrite (isDuplicateSignal_within_window _ _ _ _ _ Hk Ht Hw). simpl.
  by destruct st.
Qed.

(** C2 (as the code has it).  Let a signal be accepted by the duplicate
    check at a positive clock reading, and let a second authenticated,
    well-formed signal with the same symbol and action arrive less than
    60000 ms after it, whatever calls are served in between.  The second is
    logged as skipped, answered "skipped" with reason "duplicate signal",
    changes nothing, and no order is placed for it. *)
Theorem duplicate_of_accepted_signal_skipped
    (cfg : config) (st : state) (w1 : world) (d1 : payload)
    (between : list (world * payload)) (w2 : world) (d2 : payload) :
  authorized cfg d1 = true → well_formed d1 = true →
  authorized cfg d2 = true → well_formed d2 = true →
  symbol d2 = symbol d1 → action d2 = action d1 →
  (isDuplicateSignal (now_signal w1) (symbol_of d1) (action_of d1) (recentSignals st)).1
    = false →
  0 < now_signal w1 →
  Forall (λ call : world * payload, now_signal call.1 ≤ now_signal w2) between →
  now_signal w2 - now_signal w1 < 60000 →
  let st1 := (webhook cfg w1 d1 st).1 in
  let st2 := serve cfg between st1 in
  webhook cfg w2 d2 st2 =
    (st2, [LogWebhookOrder d2 "skipped" (Some DuplicateSignal) None;
           Respond 200 (Skipped "duplicate signal")])
  ∧ reason_text DuplicateSignal = "duplicate signal"%string
  ∧ never is_place_order (webhook cfg w2 d2 st2).2.
Proof.
  intros Ha1 Hv1 Ha2 Hv2 Hsym Hact Hfresh Hpos Hbetween Hwin st1 st2.
  assert (webhook cfg w2 d2 st2 =
    (st2, [LogWebhookOrder d2 "skipped" (Some DuplicateSignal) None;
           Respond 200 (Skipped "duplicate signal")])) as Hrun.
  { apply (webhook_skips_duplicate _ _ _ _ (now_signal w1)); [done..| |lia|done].
    subst st2. apply (serve_keeps_recent _ _ _ _ _ (now_signal w2)); [done| |lia|done].
    subst st1. rewrite webhook_tracker, Ha1, Hv1. simpl.
    unfold symbol_of, action_of. rewrite Hsym, Hact.
    by apply isDuplicateSignal_records_accepted. }
  rewrite Hrun. split; [done|]. split; [done|]. by repeat constructor.
Qed.

(** The same BUY at [t0] and 59999 ms later, with a SELL served in between. *)
Lemma duplicate_of_accepted_signal_skipped_witness :
  let d := signal "NSE:SBIN" "BUY" 10 (Some 200) in
  let other := signal "NSE:SBIN" "SELL" 10 None in
  let st1 := (webhook sample_cfg (sample_world t0 []) d sample_state).1 in
  let st2 := serve sample_cfg [(sample_world (t0 + 20000) [], other)] st1 in
  webhook sample_cfg (sample_world (t0 + 59999) []) d st2 =
    (st2, [LogWebhookOrder d "skipped" (Some DuplicateSignal) None;
           Respond 200 (Skipped "duplicate signal")])
  ∧ reason_text DuplicateSignal = "duplicate signal"%string
  ∧ never is_place_order
      (webhook sample_cfg (sample_world (t0 + 59999) []) d st2).2.
Proof.
  apply (duplicate_of_accepted_signal_skipped sample_cfg sample_state
           (sample_world t0 []) (signal "NSE:SBIN" "BUY" 10 (Some 200))
           [(sample_world (t0 + 20000) [], signal "NSE:SBIN" "SELL" 10 None)]
           (sample_world (t0 + 59999) []) (signal "NSE:SBIN" "BUY" 10 (Some 200)));
    try reflexivity.
  repeat constructor. simpl. unfold t0. lia.
Defined.

(** C2 as stated fails when the earlier of the two signals was itself
    skipped as a duplicate: the tracker still holds the time of the signal
    accepted before it.  Here the same signal arrives at [t0], [t0 + 50 s]
    and [t0 + 65 s]; the second is skipped, and the third, 15 s after the
    second, is acknowledged and its order placed. *)
Lemma duplicate_of_skipped_signal_is_executed :
  let d := signal "NSE:SBIN" "BUY" 10 (Some 200) in
  let st1 := (webhook sample_cfg (sample_world t0 []) d sample_state).1 in
  let st2 := (webhook sample_cfg (sample_world (t0 + 50000) []) d st1).1 in
  authorized sample_cfg d = true ∧ well_formed d = true
  ∧ (webhook sample_cfg (sample_world (t0 + 50000) []) d st1).2 =
      [LogWebhookOrder d "skipped" (Some DuplicateSignal) None;
       Respond 200 (Skipped "duplicate signal")]
  ∧ (t0 + 65000) - (t0 + 50000) < 60000
  ∧ (webhook sample_cfg (sample_world (t0 + 65000) []) d st2).2 =
      [Respond 200 Received; GetPositions; GetFunds;
       PlaceOrder (Some (Num 10)) "NSE_EQ|INE062A01020" (Some "BUY"%string);
       LogWebhookOrder d "success" None (Some "240101000000001"%string)].
Proof. repeat split; vm_compute; reflexivity. Qed.

(** ** What reaching the position checks means *)

(** The prefix of the handler runs through to the position fetch exactly when
    the call is authorized and well-formed, the duplicate check accepts it,
    the token is valid (after a refresh when stale) and the instrument
    resolves to a non-empty identifier. *)
Lemma to_position_checks_reaches cfg w data st tok st1 tr1 :
  to_position_checks cfg w data st = (Next tok, st1, tr1)
  ↔ authorized cfg data = true
    ∧ well_formed data = true
    ∧ ∃ recent tr,
        isDuplicateSignal (now_signal w) (symbol_of data) (action_of data)
          (recentSignals st) = (false, recent)
        ∧ ensureValidAccessToken w (set_recentSignals recent st) = (Next true, st1, tr)
        ∧ tr1 = Respond 200 Received :: tr
        ∧ getInstrumentToken (dir st1) (symbol_of data) = Some tok
        ∧ tok ≠ ""%string.
Proof.
  unfold to_position_checks.
  destruct (authorized cfg data) eqn:Ha.
  2:{ rewrite (bind_run_return _ _ _ _ _ (authenticate_rejects _ _ st Ha)).
      split; [done|]. by intros [? _]. }
  rewrite (bind_run_next _ _ _ _ _ _ (authenticate_accepts _ _ st Ha)).
  destruct (well_formed data) eqn:Hv.
  2:{ rewrite (bind_run_return _ _ _ _ _ (validate_rejects _ st Hv)).
      split; [done|]. by intros (_ & ? & _). }
  rewrite (bind_run_next _ _ _ _ _ _ (validate_accepts _ st Hv)).
  unfold suppress_duplicate, require_token, resolve_instrument, logWebhookOrder,
    get_state, put_state, emit, stop.
  unfold mbind, M_bind, mret, M_ret. simpl.
  destruct (isDuplicateSignal _ _ _ _) as [[|] recent]; simpl.
  { split; [done|]. intros (_ & _ & ? & ? & ? & _). simplify_eq. }
  destruct (ensureValidAccessToken w (set_recentSignals recent st))
    as [[o st2] tr2] eqn:Hens.
  assert (∀ P : Prop,
    (o = Next true → st2 = st1 → tr1 = Respond 200 Received :: tr2 →
     getInstrumentToken (dir st1) (symbol_of data) = Some tok → tok ≠ ""%string → P) →
    (∃ recent0 tr,
       (false, recent) = (false, recent0)
       ∧ ensureValidAccessToken w (set_recentSignals recent0 st) = (Next true, st1, tr)
       ∧ tr1 = Respond 200 Received :: tr
       ∧ getInstrumentToken (dir st1) (symbol_of data) = Some tok
       ∧ tok ≠ ""%string) → P) as Hinv.
  { intros P HP (r & t' & Hd & He & Ht & Hg & Hne). injection Hd as <-.
    rewrite Hens in He. injection He as -> -> ->. by apply HP. }
  destruct o as [[|]| |msg]; simpl.
  2,3,4: split; [done|]; intros (_ & _ & Hex); refine (Hinv _ _ Hex); discriminate.
  destruct (getInstrumentToken (dir st2) (symbol_of data)) as [t|] eqn:Htok; simpl.
  2:{ split; [done|]. intros (_ & _ & Hex). refine (Hinv _ _ Hex).
      intros _ <- _ Hg _. congruence. }
  destruct (String.eqb_spec t ""); simpl.
  - split; [done|]. intros (_ & _ & Hex). refine (Hinv _ _ Hex).
    intros _ <- _ Hg Hne. congruence.
  - rewrite !app_nil_r. split.
    + intros ?. simplify_eq. split; [done|]. split; [done|]. by eexists _, _.
    + intros (_ & _ & Hex). refine (Hinv _ _ Hex).
      intros _ <- -> Hg Hne. congruence.
Qed.

(** ** C3, C5: matching the signal against the fetched positions *)

Lemma tradingSymbol_qualified data x s :
  symbol data = Some (x +:+ ":" +:+ s) →
  contains ":" x = false → contains ":" s = false →
  tradingSymbol data = Some s.
Proof.
  intros Hsym Hx Hs. unfold tradingSymbol, symbol_of. rewrite Hsym. simpl.
  change (x +:+ ":" +:+ s) with (x +:+ String ":" s).
  by rewrite (split_qualified _ _ _ Hx), (split_without_separator _ _ Hs).
Qed.

Lemma tradingSymbol_unqualified data s :
  symbol data = Some s → contains ":" s = false → tradingSymbol data = None.
Proof.
  intros Hsym Hs. unfold tradingSymbol, symbol_of. rewrite Hsym. simpl.
  by rewrite (split_without_separator _ _ Hs).
Qed.

Lemma existingPosition_undefined positions : existingPosition positions None = None.
Proof. unfold existingPosition. by induction positions. Qed.

Lemma existingPosition_first before p after s :
  p_trading_symbol p = s → Forall (λ q, p_trading_symbol q ≠ s) before →
  existingPosition (before ++ p :: after) (Some s) = Some p.
Proof.
  intros Hp Hbefore. unfold existingPosition, strict_eq.
  induction Hbefore as [|q before Hq _ IH]; simpl.
  - by rewrite bool_decide_eq_true_2 by congruence.
  - by rewrite bool_decide_eq_false_2 by congruence.
Qed.

Lemma emit_bind_run {B} e (f : () → M B) st :
  (emit e ≫= f) st = (let '(o, st2, tr2) := f () st in (o, st2, e :: tr2)).
Proof. unfold emit, mbind, M_bind. by destruct (f () st) as [[? ?] ?]. Qed.

(** The handler from the position fetch on, once the prefix has run. *)
Lemma webhook_try_after_position_checks cfg w data st tok st1 tr1 :
  to_position_checks cfg w data st = (Next tok, st1, tr1) →
  webhook_try cfg w data st =
    (let positions := default [] (positions_response w) in
     let existing := existingPosition positions (tradingSymbol data) in
     let '(o, st2, tr2) :=
       (directional_check data existing ;;
        position_count_check cfg data positions existing ;;
        quantity_check cfg data ;;
        availableMargin ← fetch_margin w data ;
        capital_check cfg data availableMargin ;;
        place_order w data tok) st1 in
     (o, st2, tr1 ++ GetPositions :: tr2)).
Proof.
  intros H. rewrite webhook_try_from_position_checks, (bind_run_next _ _ _ _ _ _ H).
  unfold getPositions. rewrite bind_assoc_run, emit_bind_run, ret_bind_run.
  cbv zeta. repeat case_match; by simplify_eq.
Qed.

Lemma to_count_check_after_position_checks cfg w data st tok st1 tr1 :
  to_position_checks cfg w data st = (Next tok, st1, tr1) →
  to_count_check cfg w data st =
    (let positions := default [] (positions_response w) in
     let '(o, st2, tr2) :=
       directional_check data (existingPosition positions (tradingSymbol data)) st1 in
     (match o with
      | Next _ => Next (tok, positions)
      | Return => Return
      | Throw msg => Throw msg
      end, st2, tr1 ++ GetPositions :: tr2)).
Proof.
  intros H. unfold to_count_check. rewrite (bind_run_next _ _ _ _ _ _ H).
  unfold getPositions, emit, mbind, M_bind, mret, M_ret. simpl.
  destruct (directional_check _ _ st1) as [[[[]| |msg] st2] tr2]; simpl; [|done..].
  by rewrite app_nil_r.
Qed.

Lemma never_app p tr1 tr2 : never p tr1 → never p tr2 → never p (tr1 ++ tr2).
Proof. intros. by apply Forall_app. Qed.

(** C3 (as the code has it).  Let the signal reach the position checks with
    an exchange-qualified symbol ["x:s"], and let [p] be the first entry for
    [s] in the fetched positions (the one [find] returns).  If [p] is long, a
    BUY is logged as skipped with "already have long position", with no
    funds fetch and no order, while a SELL passes the directional check;
    if [p] is short, a SELL is skipped with "already have short position". *)
Theorem directional_conflict_on_first_entry
    (cfg : config) (w : world) (data : payload) (st : state)
    (tok : string) (st1 : state) (tr1 : list event)
    (x s : string) (before : list position) (p : position) (after : list position) :
  to_position_checks cfg w data st = (Next tok, st1, tr1) →
  symbol data = Some (x +:+ ":" +:+ s) →
  contains ":" x = false → contains ":" s = false →
  positions_response w = Some (before ++ p :: after) →
  p_trading_symbol p = s → Forall (λ q, p_trading_symbol q ≠ s) before →
  (0 < p_quantity p → action data = Some "BUY"%string →
     webhook cfg w data st =
       (st1, tr1 ++ [GetPositions; LogWebhookOrder data "skipped" (Some AlreadyLong) None])
     ∧ reason_text AlreadyLong = "already have long position"%string
     ∧ never is_get_funds (webhook cfg w data st).2
     ∧ never is_place_order (webhook cfg w data st).2)
  ∧ (0 < p_quantity p → action data = Some "SELL"%string →
     to_count_check cfg w data st =
       (Next (tok, before ++ p :: after), st1, tr1 ++ [GetPositions]))
  ∧ (p_quantity p < 0 → action data = Some "SELL"%string →
     webhook cfg w data st =
       (st1, tr1 ++ [GetPositions; LogWebhookOrder data "skipped" (Some AlreadyShort) None])
     ∧ reason_text AlreadyShort = "already have short position"%string
     ∧ never is_get_funds (webhook cfg w data st).2
     ∧ never is_place_order (webhook cfg w data st).2).
Proof.
  intros Hreach Hsym Hx Hs Hpos Hp Hbefore.
  pose proof (tradingSymbol_qualified _ _ _ Hsym Hx Hs) as Hts.
  pose proof (existingPosition_first _ _ after _ Hp Hbefore) as Hfind.
  pose proof (to_position_checks_never_funds cfg w data st) as Hnf.
  pose proof (to_position_checks_never_order cfg w data st) as Hno.
  rewrite Hreach in Hnf, Hno. simpl in Hnf, Hno.
  assert (∀ r, never is_get_funds (tr1 ++ [GetPositions; LogWebhookOrder data "skipped" r None])
             ∧ never is_place_order (tr1 ++ [GetPositions; LogWebhookOrder data "skipped" r None]))
    as Htail.
  { intros r. split; apply never_app; try done; by repeat constructor. }
  split; [|split].
  - intros Hq Hact.
    assert (webhook cfg w data st =
      (st1, tr1 ++ [GetPositions; LogWebhookOrder data "skipped" (Some AlreadyLong) None]))
      as Hrun.
    { apply webhook_of_return. rewrite (webhook_try_after_position_checks _ _ _ _ _ _ _ Hreach).
      rewrite Hpos, Hts. simpl. rewrite Hfind.
      unfold directional_check, logWebhookOrder, emit, stop, mbind, M_bind.
      rewrite Hact. simpl. by rewrite bool_decide_eq_true_2. }
    rewrite Hrun. simpl. split; [done|]. split; [done|]. apply Htail.
  - intros Hq Hact. rewrite (to_count_check_after_position_checks _ _ _ _ _ _ _ Hreach).
    rewrite Hpos, Hts. simpl. rewrite Hfind. unfold directional_check.
    rewrite Hact. simpl. by rewrite bool_decide_eq_false_2 by lia.
  - intros Hq Hact.
    assert (webhook cfg w data st =
      (st1, tr1 ++ [GetPositions; LogWebhookOrder data "skipped" (Some AlreadyShort) None]))
      as Hrun.
    { apply webhook_of_return. rewrite (webhook_try_after_position_checks _ _ _ _ _ _ _ Hreach).
      rewrite Hpos, Hts. simpl. rewrite Hfind.
      unfold directional_check, logWebhookOrder, emit, stop, mbind, M_bind.
      rewrite Hact. simpl. by rewrite bool_decide_eq_true_2. }
    rewrite Hrun. simpl. split; [done|]. split; [done|]. apply Htail.
Qed.

(** A BUY of NSE:SBIN while the first SBIN entry is long by 10. *)
Lemma directional_conflict_on_first_entry_witness :
  let w := sample_world t0 [Position "INFY" 3; Position "SBIN" 10] in
  let d := signal "NSE:SBIN" "BUY" 10 (Some 200) in
  let st1 := State (creds sample_state) {[ "NSE:SBIN-BUY"%string := t0 ]}
               (dir sample_state) in
  webhook sample_cfg w d sample_state =
    (st1, [Respond 200 Received] ++
          [GetPositions; LogWebhookOrder d "skipped" (Some AlreadyLong) None])
  ∧ reason_text AlreadyLong = "already have long position"%string
  ∧ never is_get_funds (webhook sample_cfg w d sample_state).2
  ∧ never is_place_order (webhook sample_cfg w d sample_state).2.
Proof.
  apply (proj1 (directional_conflict_on_first_entry sample_cfg
           (sample_world t0 [Position "INFY" 3; Position "SBIN" 10])
           (signal "NSE:SBIN" "BUY" 10 (Some 200)) sample_state
           "NSE_EQ|INE062A01020"
           (State (creds sample_state) {[ "NSE:SBIN-BUY"%string := t0 ]} (dir sample_state))
           [Respond 200 Received] "NSE" "SBIN"
           [Position "INFY" 3] (Position "SBIN" 10) []
           eq_refl eq_refl eq_refl eq_refl eq_refl eq_refl
           ltac:(repeat constructor; discriminate)));
    reflexivity.
Defined.

(** C3 as stated fails when the fetched list has more than one entry for the
    symbol: [find] returns the first, here a flat one, and the BUY goes
    through to an order although a later entry is long by 10. *)
Lemma later_long_entry_does_not_block_buy :
  let positions := [Position "SBIN" 0; Position "SBIN" 10] in
  let d := signal "NSE:SBIN" "BUY" 10 (Some 200) in
  Position "SBIN" 10 ∈ positions
  ∧ tradingSymbol d = Some "SBIN"%string
  ∧ (webhook sample_cfg (sample_world t0 positions) d sample_state).2 =
      [Respond 200 Received; GetPositions; GetFunds;
       PlaceOrder (Some (Num 10)) "NSE_EQ|INE062A01020" (Some "BUY"%string);
       LogWebhookOrder d "success" None (Some "240101000000001"%string)].
Proof.
  split; [|split].
  - apply list_elem_of_In. simpl. tauto.
  - reflexivity.
  - vm_compute. reflexivity.
Qed.

(** C5.  A signal whose symbol has no colon has an [undefined] trading
    symbol, which matches no fetched position.  When it reaches the position
    checks, the directional check passes whatever the positions are, and the
    position-count ceiling applies to it without exemption: it is skipped as
    soon as the number of non-flat positions reaches the maximum. *)
Theorem unqualified_symbol_matches_no_position
    (cfg : config) (w : world) (data : payload) (st : state)
    (tok : string) (st1 : state) (tr1 : list event) (s : string) :
  symbol data = Some s → contains ":" s = false →
  to_position_checks cfg w data st = (Next tok, st1, tr1) →
  let positions := default [] (positions_response w) in
  tradingSymbol data = None
  ∧ existingPosition positions (tradingSymbol data) = None
  ∧ to_count_check cfg w data st = (Next (tok, positions), st1, tr1 ++ [GetPositions])
  ∧ (MAX_TOTAL_POSITIONS cfg ≤ Z.of_nat (length (activePositions positions)) →
     webhook cfg w data st =
       (st1, tr1 ++ [GetPositions;
                     LogWebhookOrder data "skipped"
                       (Some (MaxTotalPositions (MAX_TOTAL_POSITIONS cfg))) None])).
Proof.
  intros Hsym Hs Hreach positions.
  pose proof (tradingSymbol_unqualified _ _ Hsym Hs) as Hts.
  assert (∀ e, directional_check data None e = (Next (), e, [])) as Hdir.
  { intros e. unfold directional_check. by repeat case_match. }
  split; [done|]. rewrite Hts, existingPosition_undefined. split; [done|]. split.
  - rewrite (to_count_check_after_position_checks _ _ _ _ _ _ _ Hreach).
    fold positions. cbv zeta. by rewrite Hts, existingPosition_undefined, Hdir.
  - intros Hmax. apply webhook_of_return.
    rewrite (webhook_try_after_position_checks _ _ _ _ _ _ _ Hreach).
    fold positions. cbv zeta. rewrite Hts, existingPosition_undefined.
    rewrite (bind_run_next _ _ _ _ _ _ (Hdir st1)).
    unfold position_count_check, logWebhookOrder, emit, stop.
    rewrite bool_decide_eq_true_2 by done. simpl.
    unfold mbind, M_bind. simpl. done.
Qed.

(** A BUY of "SBIN" (no exchange prefix) while SBIN is long by 10. *)
Lemma unqualified_symbol_matches_no_position_witness :
  let positions := [Position "SBIN" 10] in
  let w := sample_world t0 positions in
  let d := signal "SBIN" "BUY" 10 (Some 200) in
  let st1 := State (creds sample_state) {[ "SBIN-BUY"%string := t0 ]} (dir sample_state) in
  tradingSymbol d = None
  ∧ existingPosition positions (tradingSymbol d) = None
  ∧ to_count_check sample_cfg w d sample_state =
      (Next ("NSE_EQ|INE062A01020"%string, positions), st1,
       [Respond 200 Received] ++ [GetPositions])
  ∧ (MAX_TOTAL_POSITIONS sample_cfg ≤ Z.of_nat (length (activePositions positions)) →
     webhook sample_cfg w d sample_state =
       (st1, [Respond 200 Received] ++
             [GetPositions;
              LogWebhookOrder d "skipped"
                (Some (MaxTotalPositions (MAX_TOTAL_POSITIONS sample_cfg))) None])).
Proof.
  apply (unqualified_symbol_matches_no_position sample_cfg
           (sample_world t0 [Position "SBIN" 10]) (signal "SBIN" "BUY" 10 (Some 200))
           sample_state "NSE_EQ|INE062A01020"
           (State (creds sample_state) {[ "SBIN-BUY"%string := t0 ]} (dir sample_state))
           [Respond 200 Received] "SBIN" eq_refl eq_refl eq_refl).
Defined.

(** ** C4: the position-count ceiling *)

(** What the code decides at the position-count check: the signal is skipped
    exactly when the non-flat positions reach the maximum and the fetched
    list has no entry at all, flat or not, for the signal's trading symbol. *)
Lemma position_count_check_skips_iff cfg data positions existing st :
  position_count_check cfg data positions existing st =
    (Return, st,
     [LogWebhookOrder data "skipped" (Some (MaxTotalPositions (MAX_TOTAL_POSITIONS cfg))) None])
  ↔ MAX_TOTAL_POSITIONS cfg ≤ Z.of_nat (length (activePositions positions))
    ∧ existing = None.
Proof.
  unfold position_count_check, logWebhookOrder, emit, stop, mbind, M_bind.
  destruct existing as [p|].
  - rewrite (bool_decide_eq_true_2 (is_Some (Some p))) by eauto.
    rewrite andb_false_r. split; [done|]. by intros [_ ?].
  - rewrite (bool_decide_eq_false_2 (is_Some None)) by (by intros [? ?]).
    rewrite andb_true_r. case_bool_decide as Hmax; simpl.
    + by split.
    + split; [done|]. by intros [? _].
Qed.

(** C4 at the failing input.  Five positions are open, the limit is five,
    and the list also carries a flat (quantity 0) entry for SBIN, so SBIN is
    not an open position.  The code treats the flat entry as an existing
    position: the BUY passes the ceiling and its order is placed. *)
Lemma flat_entry_exempts_from_position_ceiling :
  let positions :=
    [Position "INFY" 1; Position "TCS" 2; Position "ITC" (-3); Position "WIPRO" 4;
     Position "HDFC" 5; Position "SBIN" 0] in
  let d := signal "NSE:SBIN" "BUY" 10 (Some 200) in
  MAX_TOTAL_POSITIONS sample_cfg ≤ Z.of_nat (length (activePositions positions))
  ∧ Forall (λ p, p_trading_symbol p = "SBIN"%string → p_quantity p = 0) positions
  ∧ (webhook sample_cfg (sample_world t0 positions) d sample_state).2 =
      [Respond 200 Received; GetPositions; GetFunds;
       PlaceOrder (Some (Num 10)) "NSE_EQ|INE062A01020" (Some "BUY"%string);
       LogWebhookOrder d "success" None (Some "240101000000001"%string)].
Proof.
  split; [|split].
  - vm_compute. discriminate.
  - repeat constructor; simpl; try discriminate; done.
  - vm_compute. reflexivity.
Qed.

(** ** C7: the quantity ceiling comes before the funds lookup *)

Lemma quantity_check_rejects cfg data st :
  exceeds_quantity_limit cfg data = true →
  quantity_check cfg data st =
    (Return, st,
     [LogWebhookOrder data "skipped"
        (Some (QuantityExceeds (quantity_of data) (value (MAX_QUANTITY_PER_TRADE cfg))))
        None]).
Proof. intros H. unfold quantity_check. by rewrite H. Qed.

(** The comparison is the numeric one as soon as the quantity or the limit is
    a number. *)
Lemma exceeds_quantity_limit_numeric cfg data q :
  quantity data = Some q →
  (∃ n, q = Num n) ∨ (∃ n, MAX_QUANTITY_PER_TRADE cfg = Num n) →
  exceeds_quantity_limit cfg data
  = bool_decide (value (MAX_QUANTITY_PER_TRADE cfg) < quantity_of data).
Proof.
  intros Hq Hnum. unfold exceeds_quantity_limit, quantity_of. rewrite Hq. simpl.
  destruct Hnum as [[n ->]|[n ->]]; [done|]. by destruct q.
Qed.

(** What the quantity check decides.  For a signal whose quantity is greater
    than [MAX_QUANTITY_PER_TRADE] as [>] compares the two, no run of the
    handler fetches the funds or places an order; and when the signal reaches
    the quantity check, the handler ends there with a log entry "skipped"
    whose reason is "quantity (q) exceeds max limit (max)".  That is the
    numeric comparison when the quantity or the limit is a number. *)
Lemma oversized_quantity_skipped_before_funds
    (cfg : config) (w : world) (data : payload) (st : state) :
  exceeds_quantity_limit cfg data = true →
  never is_get_funds (webhook cfg w data st).2
  ∧ never is_place_order (webhook cfg w data st).2
  ∧ (∀ tok st1 tr1,
       to_quantity_check cfg w data st = (Next tok, st1, tr1) →
       webhook cfg w data st =
         (st1, tr1 ++ [LogWebhookOrder data "skipped"
                         (Some (QuantityExceeds (quantity_of data)
                                  (value (MAX_QUANTITY_PER_TRADE cfg)))) None]))
  ∧ reason_text (QuantityExceeds (quantity_of data) (value (MAX_QUANTITY_PER_TRADE cfg))) =
      "quantity (" +:+ pretty (quantity_of data) +:+ ") exceeds max limit ("
        +:+ pretty (value (MAX_QUANTITY_PER_TRADE cfg)) +:+ ")".
Proof.
  intros Hmax.
  assert (∀ p, p (LogWebhookOrder data "skipped"
                    (Some (QuantityExceeds (quantity_of data)
                             (value (MAX_QUANTITY_PER_TRADE cfg)))) None) = false →
               quiet p (to_quantity_check cfg w data) →
               never p (webhook_try cfg w data st).2) as Hquiet.
  { intros p Hp Hprefix. rewrite webhook_try_from_quantity_check.
    apply quiet_bind_run; [done|]. intros tok st0 st1 tr1 _.
    rewrite (bind_run_return _ _ _ _ _ (quantity_check_rejects cfg data st1 Hmax)).
    simpl. by repeat constructor. }
  split; [|split; [|split]].
  - apply webhook_never; [done|]. apply Hquiet; [done|]. apply to_quantity_check_never_funds.
  - apply webhook_never; [done|]. apply Hquiet; [done|]. apply to_quantity_check_never_order.
  - intros tok st1 tr1 Hreach. apply webhook_of_return.
    rewrite webhook_try_from_quantity_check, (bind_run_next _ _ _ _ _ _ Hreach).
    by rewrite (bind_run_return _ _ _ _ _ (quantity_check_rejects cfg data st1 Hmax)).
  - reflexivity.
Qed.

(** C7 at the failing input.  [MAX_QUANTITY_PER_TRADE] is set to 200 in the
    environment, so the limit is the string "200", and the body quotes the
    quantity, "1000".  The signal reaches the quantity check; [>] compares
    the two strings by their characters, "1000" is not greater than "200",
    and the check passes: the funds are fetched and the order for 1000 is
    sent, five times the limit. *)
Lemma quoted_quantity_passes_the_quantity_limit :
  let cfg := Config (Some "s3cret"%string) 10000 5 (Str 200) in
  let w := sample_world t0 [] in
  let d := Payload (Some "s3cret"%string) (Some "NSE:SBIN"%string) (Some "BUY"%string)
             (Some (Str 1000)) (Some 5) in
  value (MAX_QUANTITY_PER_TRADE cfg) < quantity_of d
  ∧ to_quantity_check cfg w d sample_state =
      (Next "NSE_EQ|INE062A01020"%string,
       State (creds sample_state) {[ "NSE:SBIN-BUY"%string := t0 ]} (dir sample_state),
       [Respond 200 Received; GetPositions])
  ∧ (webhook cfg w d sample_state).2 =
      [Respond 200 Received; GetPositions; GetFunds;
       PlaceOrder (Some (Str 1000)) "NSE_EQ|INE062A01020" (Some "BUY"%string);
       LogWebhookOrder d "success" None (Some "240101000000001"%string)].
Proof.
  split; [|split].
  - vm_compute. reflexivity.
  - vm_compute. reflexivity.
  - vm_compute. reflexivity.
Qed.

(** ** C8: the capital ceiling *)

Lemma capital_check_without_price cfg data margin st :
  price_of data = 0 → capital_check cfg data margin st = (Next (), st, []).
Proof. intros H. unfold capital_check. rewrite H. done. Qed.

Lemma capital_check_rejects cfg data margin st :
  0 < price_of data →
  MAX_CAPITAL_PER_TRADE cfg < price_of data * quantity_of data →
  capital_check cfg data margin st =
    (Return, st,
     [LogWebhookOrder data "skipped"
        (Some (CapitalExceeds (price_of data * quantity_of data)
                 (MAX_CAPITAL_PER_TRADE cfg))) None]).
Proof.
  intros Hp Hc. unfold capital_check.
  rewrite bool_decide_eq_true_2 by done. cbv zeta.
  by rewrite bool_decide_eq_true_2 by done.
Qed.

Lemma place_order_never_capital_log w data tok :
  quiet is_capital_or_margin_log (place_order w data tok).
Proof. unfold place_order, logWebhookOrder. solve_quiet. Qed.

(** C8.  Let the signal reach the capital check.  If it carries a positive
    price and price × quantity exceeds [MAX_CAPITAL_PER_TRADE], the handler
    ends with a log entry "skipped" whose reason is the capital limit, and no
    order is placed.  If it carries no price, or price 0, neither the capital
    ceiling nor the margin test rejects it: the order request is sent, and
    the trace holds no capital or margin entry. *)
Theorem capital_ceiling_applies_to_priced_signals
    (cfg : config) (w : world) (data : payload) (st : state)
    (tok : string) (margin : margin_value) (st1 : state) (tr1 : list event) :
  to_capital_check cfg w data st = (Next (tok, margin), st1, tr1) →
  (0 < price_of data →
   MAX_CAPITAL_PER_TRADE cfg < price_of data * quantity_of data →
     webhook cfg w data st =
       (st1, tr1 ++ [LogWebhookOrder data "skipped"
                       (Some (CapitalExceeds (price_of data * quantity_of data)
                                (MAX_CAPITAL_PER_TRADE cfg))) None])
     ∧ never is_place_order (webhook cfg w data st).2)
  ∧ (price data = None ∨ price data = Some 0 →
     (∃ rest, (webhook cfg w data st).2 =
        tr1 ++ PlaceOrder (quantity data) tok (action data) :: rest)
     ∧ never is_capital_or_margin_log (webhook cfg w data st).2).
Proof.
  intros Hreach.
  pose proof (to_capital_check_never_order cfg w data st) as Hno.
  pose proof (to_capital_check_never_capital_log cfg w data st) as Hnc.
  rewrite Hreach in Hno, Hnc. simpl in Hno, Hnc.
  split.
  - intros Hp Hc.
    assert (webhook cfg w data st =
      (st1, tr1 ++ [LogWebhookOrder data "skipped"
                      (Some (CapitalExceeds (price_of data * quantity_of data)
                               (MAX_CAPITAL_PER_TRADE cfg))) None])) as Hrun.
    { apply webhook_of_return.
      rewrite webhook_try_from_capital_check, (bind_run_next _ _ _ _ _ _ Hreach).
      by rewrite (bind_run_return _ _ _ _ _ (capital_check_rejects cfg data margin st1 Hp Hc)). }
    rewrite Hrun. split; [done|]. simpl. apply never_app; [done|]. by repeat constructor.
  - intros Hprice.
    assert (price_of data = 0) as Hzero
      by (unfold price_of; destruct Hprice as [-> | ->]; done).
    assert (webhook_try cfg w data st =
      (let '(o, st2, tr2) := place_order w data tok st1 in (o, st2, tr1 ++ tr2))) as Htry.
    { rewrite webhook_try_from_capital_check, (bind_run_next _ _ _ _ _ _ Hreach).
      rewrite (bind_run_next _ _ _ _ _ _ (capital_check_without_price cfg data margin st1 Hzero)).
      simpl. by destruct (place_order w data tok st1) as [[? ?] ?]. }
    pose proof (place_order_never_capital_log w data tok st1) as Hpo.
    unfold webhook. rewrite Htry. clear Htry. revert Hpo.
    unfold place_order, logWebhookOrder, throw, emit, mbind, M_bind.
    destruct (order_response w) as [msg|oid|msg]; simpl; intros Hpo.
    + split; [eexists; by rewrite <- app_assoc|].
      rewrite <- app_assoc. apply never_app; [done|]. by repeat constructor.
    + split; [by eexists|]. apply never_app; [done|]. by repeat constructor.
    + split; [eexists; by rewrite <- app_assoc|].
      rewrite <- app_assoc. apply never_app; [done|]. by repeat constructor.
Qed.

(** Price 200 and quantity 60, value 12000, against the limit of 10000. *)
Lemma capital_ceiling_applies_to_priced_signals_witness :
  let w := sample_world t0 [] in
  let d := signal "NSE:SBIN" "BUY" 60 (Some 200) in
  webhook sample_cfg w d sample_state =
    (State (creds sample_state) {[ "NSE:SBIN-BUY"%string := t0 ]} (dir sample_state),
     [Respond 200 Received; GetPositions; GetFunds] ++
     [LogWebhookOrder d "skipped" (Some (CapitalExceeds (200 * 60) 10000)) None])
  ∧ never is_place_order (webhook sample_cfg w d sample_state).2.
Proof.
  apply (proj1 (capital_ceiling_applies_to_priced_signals sample_cfg (sample_world t0 [])
                  (signal "NSE:SBIN" "BUY" 60 (Some 200)) sample_state
                  "NSE_EQ|INE062A01020" (Margin 50000)
                  (State (creds sample_state) {[ "NSE:SBIN-BUY"%string := t0 ]}
                     (dir sample_state))
                  [Respond 200 Received; GetPositions; GetFunds] eq_refl));
    reflexivity.
Defined.

(** ** C9: the token lifecycle *)

Lemma ensureValidAccessToken_run w st :
  ensureValidAccessToken w st =
    if negb (truthy_str (upstoxAccessToken (creds st))) then (Next false, st, [])
    else if stale (now_token_check w) (creds st) then
      match refresh_response w with
      | None => (Next false, st, [RefreshToken (upstoxRefreshToken (creds st))])
      | Some (access, refresh) =>
          (Next true,
           set_creds (Credentials access refresh
                        (Some (refreshed_expiry (now_refreshed w)))) st,
           refresh_trace w (upstoxRefreshToken (creds st)) access refresh)
      end
    else (Next true, st, []).
Proof.
  unfold ensureValidAccessToken, saveTokensToDB, refresh_trace, get_state, put_state, emit.
  unfold mbind, M_bind, mret, M_ret. simpl.
  repeat case_match; simplify_eq; done.
Qed.

(** C9.  [ensureValidAccessToken] always returns a boolean.  It returns true
    only if an access token is present and either the clock is before
    [tokenExpiryTime - 60000] (nothing is touched), or it is not and the one
    refresh exchange succeeded, in which case the in-memory pair is the
    answer's and the expiry is the clock plus 23 hours.  It returns false
    when no access token is present (nothing is touched, nothing is called)
    and when the refresh fails (one exchange, access token, refresh token and
    expiry unchanged). *)
Theorem ensureValidAccessToken_contract (w : world) (st : state) :
  let '(o, st1, tr) := ensureValidAccessToken w st in
  (∃ b : bool, o = Next b)
  ∧ (length (filter (λ e, is_refresh e = true) tr) ≤ 1)%nat
  ∧ (o = Next true →
       truthy_str (upstoxAccessToken (creds st)) = true
       ∧ ((stale (now_token_check w) (creds st) = false ∧ st1 = st ∧ tr = [])
          ∨ (stale (now_token_check w) (creds st) = true
             ∧ ∃ access refresh,
                 refresh_response w = Some (access, refresh)
                 ∧ creds st1 =
                     Credentials access refresh
                       (Some (now_refreshed w + 23 * 60 * 60 * 1000))
                 ∧ recentSignals st1 = recentSignals st ∧ dir st1 = dir st
                 ∧ tr = refresh_trace w (upstoxRefreshToken (creds st)) access refresh
                 ∧ length (filter (λ e, is_refresh e = true) tr) = 1%nat)))
  ∧ (truthy_str (upstoxAccessToken (creds st)) = false →
       o = Next false ∧ st1 = st ∧ tr = [])
  ∧ (truthy_str (upstoxAccessToken (creds st)) = true →
     stale (now_token_check w) (creds st) = true →
     refresh_response w = None →
       o = Next false ∧ st1 = st
       ∧ tr = [RefreshToken (upstoxRefreshToken (creds st))]).
Proof.
  rewrite ensureValidAccessToken_run.
  destruct (truthy_str (upstoxAccessToken (creds st))) eqn:Htok; simpl.
  2:{ split; [by eexists|]. split; [simpl; lia|]. repeat split; done. }
  destruct (stale (now_token_check w) (creds st)) eqn:Hstale.
  2:{ split; [by eexists|]. split; [simpl; lia|]. split; [|done].
      intros _. split; [done|]. by left. }
  destruct (refresh_response w) as [[access refresh]|] eqn:Hresp.
  - assert (length (filter (λ e, is_refresh e = true)
              (refresh_trace w (upstoxRefreshToken (creds st)) access refresh)) = 1%nat)
      as Hone by (unfold refresh_trace; by destruct (delete_tokens_ok w)).
    split; [by eexists|]. split; [lia|]. split; [|done].
    intros _. split; [done|]. right. split; [done|].
    exists access, refresh. repeat split; done.
  - split; [by eexists|]. split; [simpl; lia|]. split; [done|]. split; [done|]. done.
Qed.

(** ** Reaching the later checks *)

(** A bind continues exactly when both halves do. *)
Lemma bind_run_next_iff {A B} (m : M A) (f : A → M B) st b st2 tr2 :
  (m ≫= f) st = (Next b, st2, tr2)
  ↔ ∃ a st1 tr1 tr,
      m st = (Next a, st1, tr1) ∧ f a st1 = (Next b, st2, tr) ∧ tr2 = tr1 ++ tr.
Proof.
  unfold mbind, M_bind. destruct (m st) as [[[a| |msg] st1] tr1].
  - destruct (f a st1) as [[o st3] tr3] eqn:Hf. split.
    + intros ?. simplify_eq. by eexists _, _, _, _.
    + intros (? & ? & ? & ? & ? & Hf' & ?). simplify_eq. rewrite Hf in Hf'. by simplify_eq.
  - split; [done|]. by intros (? & ? & ? & ? & ? & _).
  - split; [done|]. by intros (? & ? & ? & ? & ? & _).
Qed.

Lemma quantity_check_accepts cfg data st :
  exceeds_quantity_limit cfg data = false →
  quantity_check cfg data st = (Next (), st, []).
Proof. intros H. unfold quantity_check. by rewrite H. Qed.

(** A check that lets the signal through changes nothing and logs nothing. *)
Lemma directional_check_next data existing st u st1 tr :
  directional_check data existing st = (Next u, st1, tr) → st1 = st ∧ tr = [].
Proof.
  unfold directional_check, logWebhookOrder, emit, stop, mbind, M_bind, mret, M_ret.
  repeat case_match; intros ?; by simplify_eq.
Qed.

Lemma position_count_check_next cfg data positions existing st u st1 tr :
  position_count_check cfg data positions existing st = (Next u, st1, tr) →
  st1 = st ∧ tr = [].
Proof.
  unfold position_count_check, logWebhookOrder, emit, stop, mbind, M_bind, mret, M_ret.
  repeat case_match; intros ?; by simplify_eq.
Qed.

Lemma quantity_check_next cfg data st u st1 tr :
  quantity_check cfg data st = (Next u, st1, tr) →
  st1 = st ∧ tr = [] ∧ exceeds_quantity_limit cfg data = false.
Proof.
  unfold quantity_check, logWebhookOrder, emit, stop, mbind, M_bind, mret, M_ret.
  destruct (exceeds_quantity_limit cfg data); intros ?; by simplify_eq.
Qed.

(** The count check is reached when the position checks are and the
    directional check passes. *)
Lemma to_count_check_reaches cfg w data st tok positions st1 tr :
  to_count_check cfg w data st = (Next (tok, positions), st1, tr)
  ↔ ∃ tr1,
      to_position_checks cfg w data st = (Next tok, st1, tr1)
      ∧ positions = default [] (positions_response w)
      ∧ tr = tr1 ++ [GetPositions]
      ∧ directional_check data (existingPosition positions (tradingSymbol data)) st1
          = (Next (), st1, []).
Proof.
  split.
  - unfold to_count_check. rewrite bind_run_next_iff.
    intros (tok' & st2 & tr1 & tr' & Hpre & H & ->).
    unfold getPositions in H. rewrite bind_assoc_run, emit_bind_run, ret_bind_run in H.
    match type of H with context [ (?m ≫= ?f) st2 ] =>
      destruct ((m ≫= f) st2) as [[o st3] tr3] eqn:Hrun end.
    simplify_eq.
    apply bind_run_next_iff in Hrun as ([] & st4 & tr4 & tr5 & Hdir & Hret & ->).
    unfold mret, M_ret in Hret. simplify_eq.
    destruct (directional_check_next _ _ _ _ _ _ Hdir) as [-> ->].
    by exists tr1.
  - intros (tr1 & Hpre & -> & -> & Hdir).
    rewrite (to_count_check_after_position_checks _ _ _ _ _ _ _ Hpre).
    cbv zeta. by rewrite Hdir.
Qed.

(** The quantity check is reached when the count check is and lets the
    signal through: the non-flat positions are below the maximum, or the
    list has an entry for the trading symbol. *)
Lemma to_quantity_check_reaches cfg w data st tok st1 tr :
  to_quantity_check cfg w data st = (Next tok, st1, tr)
  ↔ ∃ positions,
      to_count_check cfg w data st = (Next (tok, positions), st1, tr)
      ∧ ¬ (MAX_TOTAL_POSITIONS cfg ≤ Z.of_nat (length (activePositions positions))
           ∧ existingPosition positions (tradingSymbol data) = None).
Proof.
  unfold to_quantity_check. rewrite bind_run_next_iff. split.
  - intros ([tok' positions] & st2 & tr1 & tr' & Hpre & H & ->). simpl in H.
    apply bind_run_next_iff in H as ([] & st3 & tr3 & tr4 & Hcheck & H & ->).
    unfold mret, M_ret in H. simplify_eq.
    destruct (position_count_check_next _ _ _ _ _ _ _ _ Hcheck) as [-> ->].
    rewrite !app_nil_r. exists positions. split; [done|].
    intros Hskip.
    by rewrite (proj2 (position_count_check_skips_iff _ _ _ _ _) Hskip) in Hcheck.
  - intros (positions & Hpre & Hpass).
    exists (tok, positions), st1, tr, []. split; [done|]. split; [|by rewrite app_nil_r].
    simpl. apply bind_run_next_iff. exists (), st1, [], []. split; [|done].
    unfold position_count_check.
    destruct (existingPosition positions (tradingSymbol data)) as [p|] eqn:Hex.
    + rewrite (bool_decide_eq_true_2 (is_Some (Some p))) by eauto. by rewrite andb_false_r.
    + rewrite (bool_decide_eq_false_2 (MAX_TOTAL_POSITIONS cfg ≤ _)); [done|].
      intros ?. by apply Hpass.
Qed.

(** The capital check is reached when the quantity check is, the quantity is
    not greater than the limit as [>] compares them, and the funds answer
    carries an [equity] object. *)
Lemma to_capital_check_reaches cfg w data st tok margin st1 tr :
  to_capital_check cfg w data st = (Next (tok, margin), st1, tr)
  ↔ ∃ tr1,
      to_quantity_check cfg w data st = (Next tok, st1, tr1)
      ∧ exceeds_quantity_limit cfg data = false
      ∧ funds_response w = FundsAvailable margin
      ∧ tr = tr1 ++ [GetFunds].
Proof.
  unfold to_capital_check. rewrite bind_run_next_iff. split.
  - intros (tok' & st2 & tr1 & tr' & Hpre & H & ->).
    apply bind_run_next_iff in H as ([] & st3 & tr3 & tr4 & Hcheck & H & ->).
    destruct (quantity_check_next _ _ _ _ _ _ Hcheck) as (-> & -> & Hq).
    apply bind_run_next_iff in H as (m & st4 & tr5 & tr6 & Hfunds & H & ->).
    unfold mret, M_ret in H. simplify_eq.
    unfold fetch_margin, logWebhookOrder, emit, stop, throw, mbind, M_bind, mret, M_ret
      in Hfunds.
    destruct (funds_response w) as [|msg|m] eqn:Hf; simplify_eq.
    exists tr1. by rewrite !app_nil_r.
  - intros (tr1 & Hpre & Hq & Hf & ->).
    exists tok, st1, tr1, [GetFunds]. split; [done|]. split; [|done].
    apply bind_run_next_iff. exists (), st1, [], [GetFunds].
    split; [by apply quantity_check_accepts|]. split; [|done].
    unfold fetch_margin, emit, mbind, M_bind, mret, M_ret. by rewrite Hf.
Qed.

(** * Further properties *)

(** ** The instrument directory *)

Lemma merge_instrument_by_key d e k :
  k ≠ ""%string →
  instrumentMap (merge_instrument d e) !! k =
    if has_key k e then Some e else instrumentMap d !! k.
Proof.
  intros Hk. unfold merge_instrument, has_key. simpl.
  destruct (instrument_key e) as [t|] eqn:Ht.
  - destruct (decide (t = k)) as [->|Hne].
    + rewrite (bool_decide_eq_true_2 (Some k = Some k)) by done.
      assert (String.eqb k "" = false) as -> by by apply String.eqb_neq.
      simpl. by rewrite lookup_insert_eq.
    + rewrite (bool_decide_eq_false_2 (Some t = Some k)) by congruence.
      case_match; [|done]. by rewrite lookup_insert_ne.
  - by rewrite bool_decide_eq_false_2.
Qed.

Lemma merge_instrument_empty_key d e :
  instrumentMap (merge_instrument d e) !! ""%string = instrumentMap d !! ""%string.
Proof.
  unfold merge_instrument. simpl. destruct (instrument_key e) as [t|]; [|done].
  destruct (String.eqb_spec t ""); simpl; [done|]. by rewrite lookup_insert_ne.
Qed.

Lemma merge_instrument_empty_symbol d e :
  symbolToInstrumentMap (merge_instrument d e) !! ""%string
  = symbolToInstrumentMap d !! ""%string.
Proof.
  unfold merge_instrument. simpl. destruct (trading_symbol e) as [t|]; [|done].
  destruct (String.eqb_spec t ""); simpl; [done|].
  case_match; [|done]. by rewrite lookup_insert_ne.
Qed.

Lemma foldl_merge_by_key es d k :
  k ≠ ""%string →
  instrumentMap (foldl merge_instrument d es) !! k =
    match last (filter (λ i, has_key k i = true) es) with
    | Some i => Some i
    | None => instrumentMap d !! k
    end.
Proof.
  intros Hk. revert d. induction es as [|e es IH]; intros d; simpl; [done|].
  rewrite IH, (merge_instrument_by_key _ _ _ Hk).
  destruct (has_key k e) eqn:He.
  - rewrite (filter_cons_True _ e) by done. rewrite last_cons. by destruct (last _).
  - rewrite (filter_cons_False _ e) by (by rewrite He). done.
Qed.

Lemma foldl_merge_empty_key es d :
  instrumentMap (foldl merge_instrument d es) !! ""%string = instrumentMap d !! ""%string.
Proof.
  revert d. induction es as [|e es IH]; intros d; simpl; [done|].
  by rewrite IH, merge_instrument_empty_key.
Qed.

Lemma foldl_merge_empty_symbol es d :
  symbolToInstrumentMap (foldl merge_instrument d es) !! ""%string
  = symbolToInstrumentMap d !! ""%string.
Proof.
  revert d. induction es as [|e es IH]; intros d; simpl; [done|].
  by rewrite IH, merge_instrument_empty_symbol.
Qed.

(** X1.  By instrument key the last writer wins: after a sync, [instrumentMap]
    holds under a non-empty key the last merged entry with that key, and
    what it held before when no merged entry has that key. *)
Theorem syncInstruments_by_key_last_writer
    (src : catalog_source) (d : directory) (k : string) :
  k ≠ ""%string →
  instrumentMap (syncInstruments src d) !! k =
    match last (filter (λ i, has_key k i = true) (synced_entries src)) with
    | Some i => Some i
    | None => instrumentMap d !! k
    end.
Proof. intros Hk. rewrite syncInstruments_entries. by apply foldl_merge_by_key. Qed.

(** The BSE listing of SBIN is the only entry with its key. *)
Lemma syncInstruments_by_key_last_writer_witness :
  instrumentMap (syncInstruments sample_catalog empty_directory)
    !! "BSE_EQ|INE062A01020"%string = Some sbin_bse.
Proof.
  rewrite (syncInstruments_by_key_last_writer sample_catalog empty_directory
             "BSE_EQ|INE062A01020" ltac:(discriminate)).
  reflexivity.
Defined.

Lemma empty_directory_consistent : directory_consistent empty_directory.
Proof. split; intros ? ? H; simpl in H; by rewrite lookup_empty in H. Qed.

Lemma merge_instrument_consistent d e :
  directory_consistent d → directory_consistent (merge_instrument d e).
Proof.
  intros [Hkey Hsym]. split.
  - intros k inst. destruct (decide (k = ""%string)) as [->|Hk].
    + rewrite merge_instrument_empty_key. apply Hkey.
    + rewrite (merge_instrument_by_key _ _ _ Hk). unfold has_key.
      case_bool_decide as He; [|apply Hkey]. intros ?. by simplify_eq.
  - intros s inst. destruct (decide (s = ""%string)) as [->|Hs].
    + rewrite merge_instrument_empty_symbol. apply Hsym.
    + rewrite (merge_instrument_by_symbol _ _ _ Hs). unfold names_symbol.
      case_bool_decide as He; [|apply Hsym].
      destruct (is_nse e); [intros ?; by simplify_eq|].
      destruct (symbolToInstrumentMap d !! s) as [i|] eqn:Hd.
      * intros ?. simplify_eq. by apply Hsym.
      * intros ?. by simplify_eq.
Qed.

Lemma foldl_merge_consistent es d :
  directory_consistent d → directory_consistent (foldl merge_instrument d es).
Proof.
  revert d. induction es as [|e es IH]; intros d Hd; simpl; [done|].
  by apply IH, merge_instrument_consistent.
Qed.

(** X2.  Sync keeps the directory consistent: if every instrument is filed
    under its own non-empty instrument key and its own non-empty trading
    symbol, the same holds after [syncInstruments], so that a token resolved
    by [getInstrumentToken] belongs to an instrument whose trading symbol is
    the symbol that was looked up. *)
Theorem syncInstruments_keeps_directory_consistent
    (src : catalog_source) (d : directory) :
  directory_consistent d →
  directory_consistent (syncInstruments src d)
  ∧ (∀ symbol tok,
       getInstrumentToken (syncInstruments src d) symbol = Some tok →
       ∃ inst,
         symbolToInstrumentMap (syncInstruments src d)
           !! property_key (lookup_symbol symbol) = Some inst
         ∧ trading_symbol inst = Some (property_key (lookup_symbol symbol))
         ∧ instrument_key inst = Some tok).
Proof.
  intros Hd.
  assert (directory_consistent (syncInstruments src d)) as Hc.
  { rewrite syncInstruments_entries. by apply foldl_merge_consistent. }
  split; [done|]. intros symbol tok. unfold getInstrumentToken.
  destruct (symbolToInstrumentMap _ !! _) as [inst|] eqn:Hl; [|done].
  intros Hk. exists inst. split; [done|]. split; [|done].
  by apply (proj2 Hc) in Hl as [? _].
Qed.

(** The directory a server builds at start-up. *)
Lemma syncInstruments_keeps_directory_consistent_witness :
  directory_consistent (syncInstruments sample_catalog empty_directory).
Proof.
  exact (proj1 (syncInstruments_keeps_directory_consistent sample_catalog empty_directory
                  empty_directory_consistent)).
Defined.

Lemma merge_instrument_grows d e :
  dom (instrumentMap d) ⊆ dom (instrumentMap (merge_instrument d e))
  ∧ dom (symbolToInstrumentMap d) ⊆ dom (symbolToInstrumentMap (merge_instrument d e)).
Proof.
  unfold merge_instrument. simpl. split.
  - repeat case_match; try done; rewrite dom_insert; set_solver.
  - repeat case_match; try done; rewrite dom_insert; set_solver.
Qed.

Lemma foldl_merge_grows es d :
  dom (instrumentMap d) ⊆ dom (instrumentMap (foldl merge_instrument d es))
  ∧ dom (symbolToInstrumentMap d)
      ⊆ dom (symbolToInstrumentMap (foldl merge_instrument d es)).
Proof.
  revert d. induction es as [|e es IH]; intros d; simpl; [done|].
  destruct (merge_instrument_grows d e) as [H1 H2].
  destruct (IH (merge_instrument d e)) as [H3 H4].
  split; by etrans.
Qed.

(** X3.  A sync never forgets: every key and every symbol filed before is
    still filed afterwards (an instrument that left the catalog stays
    resolvable), and a symbol that no merged NSE entry names keeps the very
    instrument it had.  When every download fails and no local copy exists,
    the directory is unchanged. *)
Theorem syncInstruments_never_forgets (src : catalog_source) (d : directory) :
  dom (instrumentMap d) ⊆ dom (instrumentMap (syncInstruments src d))
  ∧ dom (symbolToInstrumentMap d) ⊆ dom (symbolToInstrumentMap (syncInstruments src d))
  ∧ (∀ s inst,
       symbolToInstrumentMap d !! s = Some inst →
       Forall (λ e, names_symbol s e && is_nse e = false) (synced_entries src) →
       symbolToInstrumentMap (syncInstruments src d) !! s = Some inst)
  ∧ ((∀ segment, remote_catalog src segment = None ∧ local_catalog src segment = None) →
     syncInstruments src d = d).
Proof.
  rewrite syncInstruments_entries.
  destruct (foldl_merge_grows (synced_entries src) d) as [H1 H2].
  split; [done|]. split; [done|]. split.
  - intros s inst Hs Hnone. destruct (decide (s = ""%string)) as [->|Hne].
    + by rewrite foldl_merge_empty_symbol.
    + clear H1 H2.
      rewrite (foldl_merge_by_symbol _ _ _ Hne). unfold first_writer_nse_preferred.
      rewrite Hs.
      assert (filter (λ i, names_symbol s i && is_nse i = true) (synced_entries src) = [])
        as ->; [|done].
      induction Hnone as [|e es He _ IH]; [done|]. simpl in He.
      rewrite filter_cons_False; [done|]. intros Hyes. congruence.
  - intros Hfail. unfold synced_entries, segment_entries, segments. simpl.
    by rewrite !(proj1 (Hfail _)), !(proj2 (Hfail _)).
Qed.

Lemma directory_eq (a b : directory) :
  instrumentMap a = instrumentMap b →
  symbolToInstrumentMap a = symbolToInstrumentMap b → a = b.
Proof. destruct a, b. simpl. by intros -> ->. Qed.

Lemma foldl_merge_idempotent es d :
  foldl merge_instrument (foldl merge_instrument d es) es = foldl merge_instrument d es.
Proof.
  apply directory_eq; apply map_eq; intros k;
    destruct (decide (k = ""%string)) as [->|Hk].
  - by rewrite foldl_merge_empty_key.
  - rewrite !(foldl_merge_by_key _ _ _ Hk). by destruct (last _).
  - by rewrite foldl_merge_empty_symbol.
  - rewrite !(foldl_merge_by_symbol _ _ _ Hk). unfold first_writer_nse_preferred.
    destruct (last _); [done|].
    destruct (symbolToInstrumentMap d !! k); [done|]. by destruct (head _).
Qed.

(** X4.  Syncing is idempotent: running [syncInstruments] a second time
    against the same catalog answers leaves both maps as the first run left
    them. *)
Theorem syncInstruments_idempotent (src : catalog_source) (d : directory) :
  syncInstruments src (syncInstruments src d) = syncInstruments src d.
Proof. rewrite !syncInstruments_entries. apply foldl_merge_idempotent. Qed.

(** X5.  NSE is preferred at lookup: when a merged catalog entry lists the
    bare symbol [s] on NSE, then after the sync, whatever the directory held
    before, [getInstrumentToken] resolves ["x:s"] (and ["s"]) to the
    instrument key of an NSE entry of the catalog for [s]. *)
Theorem getInstrumentToken_resolves_to_nse
    (src : catalog_source) (d : directory) (x s : string) (e : instrument) :
  contains ":" x = false → contains ":" s = false → s ≠ ""%string →
  e ∈ synced_entries src →
  trading_symbol e = Some s → exchange e = Some "NSE"%string →
  ∃ inst,
    inst ∈ synced_entries src
    ∧ trading_symbol inst = Some s ∧ exchange inst = Some "NSE"%string
    ∧ getInstrumentToken (syncInstruments src d) (x +:+ ":" +:+ s) = instrument_key inst
    ∧ getInstrumentToken (syncInstruments src d) s = instrument_key inst.
Proof.
  intros Hx Hs Hne He Hsym Hex.
  set (nse := filter (λ i, names_symbol s i && is_nse i = true) (synced_entries src)).
  assert (e ∈ nse) as Hin.
  { apply list_elem_of_filter. split; [|done]. unfold names_symbol, is_nse, strict_eq.
    by rewrite !bool_decide_eq_true_2. }
  destruct (last nse) as [inst|] eqn:Hlast.
  2:{ apply last_None in Hlast. rewrite Hlast in Hin. by apply elem_of_nil in Hin. }
  pose proof (last_Some_elem_of _ _ Hlast) as Hinst.
  apply list_elem_of_filter in Hinst as [Hp Hinst].
  apply andb_true_iff in Hp as [Hn Hnse].
  unfold names_symbol in Hn. apply bool_decide_eq_true in Hn.
  unfold is_nse, strict_eq in Hnse. apply bool_decide_eq_true in Hnse.
  exists inst. split; [done|]. split; [done|]. split; [done|].
  unfold getInstrumentToken.
  rewrite (lookup_symbol_qualified _ _ Hx Hs), (lookup_symbol_bare _ Hs). simpl.
  rewrite syncInstruments_entries, (foldl_merge_by_symbol _ _ _ Hne).
  unfold first_writer_nse_preferred. fold nse. by rewrite Hlast.
Qed.

(** SBIN is listed on NSE and on BSE; the lookup resolves to NSE. *)
Lemma getInstrumentToken_resolves_to_nse_witness :
  ∃ inst,
    inst ∈ synced_entries sample_catalog
    ∧ trading_symbol inst = Some "SBIN"%string ∧ exchange inst = Some "NSE"%string
    ∧ getInstrumentToken (syncInstruments sample_catalog empty_directory) "NSE:SBIN"
      = instrument_key inst
    ∧ getInstrumentToken (syncInstruments sample_catalog empty_directory) "SBIN"
      = instrument_key inst.
Proof.
  apply (getInstrumentToken_resolves_to_nse sample_catalog empty_directory
           "NSE" "SBIN" sbin_nse); try reflexivity; try discriminate.
  apply list_elem_of_In. simpl. tauto.
Defined.

(** ** The duplicate tracker *)

Lemma live_is_Some now entry :
  is_Some (live now entry)
  ↔ ∃ t, entry = Some t ∧ t ≠ 0 ∧ now - t < DUPLICATE_SIGNAL_WINDOW.
Proof.
  unfold live. destruct entry as [t|].
  - case_bool_decide as H; split.
    + intros _. by exists t.
    + by eauto.
    + by intros [? ?].
    + intros (? & ? & ?). by simplify_eq.
  - split; [by intros [? ?]|]. by intros (? & ? & _).
Qed.

Lemma isDuplicateSignal_answer now sym act recent :
  (isDuplicateSignal now sym act recent).1
  = bool_decide (is_Some (live now (recent !! signal_key sym act))).
Proof.
  unfold isDuplicateSignal.
  destruct (recent !! signal_key sym act) as [t|] eqn:Hk.
  - assert (bool_decide (is_Some (live now (Some t)))
            = negb (t =? 0) && bool_decide (now - t < DUPLICATE_SIGNAL_WINDOW)) as ->.
    { destruct (Z.eqb_spec t 0) as [->|Ht]; simpl negb; cbn [andb].
      - apply bool_decide_eq_false_2.
        rewrite live_is_Some. intros (? & ? & ? & _). by simplify_eq.
      - apply bool_decide_ext. rewrite live_is_Some. split.
        + intros (? & ? & _ & ?). by simplify_eq.
        + intros ?. by exists t. }
    unfold truthy_num. simpl default. by case_match.
  - rewrite (bool_decide_eq_false_2 (is_Some (live now None))); [done|].
    rewrite live_is_Some. by intros (? & ? & _).
Qed.

Lemma isDuplicateSignal_duplicate_keeps now sym act recent :
  (isDuplicateSignal now sym act recent).1 = true →
  (isDuplicateSignal now sym act recent).2 = recent.
Proof. unfold isDuplicateSignal. by case_match. Qed.

Lemma isDuplicateSignal_accepted_lookup now sym act recent k :
  (isDuplicateSignal now sym act recent).1 = false →
  (isDuplicateSignal now sym act recent).2 !! k =
    if decide (k = signal_key sym act) then Some now
    else match recent !! k with
         | Some v =>
             if bool_decide ((100 < size (<[signal_key sym act := now]> recent))%nat
                             ∧ DUPLICATE_SIGNAL_WINDOW < now - v)
             then None else Some v
         | None => None
         end.
Proof.
  intros Hacc. destruct (decide (k = signal_key sym act)) as [->|Hne].
  { by apply isDuplicateSignal_records_accepted. }
  revert Hacc. unfold isDuplicateSignal. case_match; [done|]. intros _. cbn [snd].
  destruct (bool_decide_reflect (100 < size (<[signal_key sym act:=now]> recent))%nat)
    as [Hsize|Hsize].
  - rewrite map_lookup_filter, lookup_insert_ne by done.
    destruct (recent !! k) as [v|]; simpl; [|done].
    destruct (decide (DUPLICATE_SIGNAL_WINDOW < now - v)) as [Hold|Hold].
    + rewrite option_guard_False by (simpl; intros Hkeep; by apply Hkeep).
      by rewrite bool_decide_eq_true_2.
    + rewrite option_guard_True by done.
      rewrite bool_decide_eq_false_2; [done|]. by intros [_ ?].
  - rewrite lookup_insert_ne by done. destruct (recent !! k) as [v|]; [|done].
    rewrite bool_decide_eq_false_2; [done|]. by intros [? _].
Qed.

(** X6.  What a call leaves in the tracker.  A duplicate leaves it as it was
    (a skipped signal does not extend the window).  An accepted signal is
    recorded at the current clock reading; every other entry afterwards was
    there before, entries not older than the window are all kept, the
    clean-up runs only when the tracker holds more than 100 entries, and
    after it every entry is at most 60000 ms old. *)
Theorem isDuplicateSignal_tracker_afterwards
    (now : Z) (sym act : string) (recent : gmap string Z) :
  let key := signal_key sym act in
  let result := isDuplicateSignal now sym act recent in
  if result.1 then result.2 = recent
  else
    result.2 !! key = Some now
    ∧ (∀ k v, k ≠ key → result.2 !! k = Some v → recent !! k = Some v)
    ∧ (∀ k v, k ≠ key → recent !! k = Some v → now - v ≤ 60000 →
         result.2 !! k = Some v)
    ∧ ((size (<[key := now]> recent) ≤ 100)%nat → result.2 = <[key := now]> recent)
    ∧ ((100 < size (<[key := now]> recent))%nat →
       ∀ k v, result.2 !! k = Some v → now - v ≤ 60000).
Proof.
  intros key result.
  destruct (result.1) eqn:Hans.
  { by apply isDuplicateSignal_duplicate_keeps. }
  pose proof (λ k, isDuplicateSignal_accepted_lookup now sym act recent k Hans) as Hl.
  fold key result in Hl.
  split; [|split; [|split; [|split]]].
  - rewrite Hl. by rewrite decide_True.
  - intros k v Hk. rewrite Hl, decide_False by done.
    destruct (recent !! k) as [v'|]; [|done]. by case_bool_decide.
  - intros k v Hk Hv Hw. rewrite Hl, decide_False, Hv by done.
    rewrite bool_decide_eq_false_2; [done|].
    unfold DUPLICATE_SIGNAL_WINDOW. lia.
  - intros Hsize. apply map_eq. intros k. rewrite Hl.
    destruct (decide (k = key)) as [->|Hk].
    + by rewrite lookup_insert_eq.
    + rewrite lookup_insert_ne by done. destruct (recent !! k) as [v|]; [|done].
      rewrite bool_decide_eq_false_2; [done|]. lia.
  - intros Hsize k v. rewrite Hl. destruct (decide (k = key)) as [->|Hk].
    + intros ?. simplify_eq. lia.
    + destruct (recent !! k) as [v'|]; [|done].
      case_bool_decide as Hold; [done|]. intros ?. simplify_eq.
      unfold DUPLICATE_SIGNAL_WINDOW in Hold. lia.
Qed.

Lemma live_later now now' entry :
  now ≤ now' →
  live now' entry = match live now entry with Some t => live now' (Some t) | None => None end.
Proof.
  intros Hle. unfold live. destruct entry as [t|]; [|done].
  unfold DUPLICATE_SIGNAL_WINDOW.
  repeat case_bool_decide; try done. lia.
Qed.

Lemma same_live_later now now' m1 m2 :
  now ≤ now' → same_live now m1 m2 → same_live now' m1 m2.
Proof.
  intros Hle H k. rewrite (live_later now now' (m1 !! k)), (live_later now now' (m2 !! k))
    by done. by rewrite (H k).
Qed.

Lemma live_after_call now sym act recent k :
  live now ((isDuplicateSignal now sym act recent).2 !! k) =
    if bool_decide (k = signal_key sym act
                    ∧ (isDuplicateSignal now sym act recent).1 = false)
    then live now (Some now)
    else live now (recent !! k).
Proof.
  destruct ((isDuplicateSignal now sym act recent).1) eqn:Hans.
  - rewrite (isDuplicateSignal_duplicate_keeps _ _ _ _ Hans).
    rewrite bool_decide_eq_false_2; [done|]. by intros [_ ?].
  - rewrite (isDuplicateSignal_accepted_lookup _ _ _ _ _ Hans).
    destruct (decide (k = signal_key sym act)) as [->|Hk].
    + by rewrite bool_decide_eq_true_2.
    + rewrite bool_decide_eq_false_2 by (by intros [? _]).
      destruct (recent !! k) as [v|]; [|done].
      case_bool_decide as Hold; [|done].
      unfold live. rewrite bool_decide_eq_false_2; [done|].
      intros [_ ?]. lia.
Qed.

(** X7.  Entries that have left the window never matter.  If two trackers
    agree on the entries still inside the window at some clock reading, then
    at any later reading [isDuplicateSignal] gives the same answer on both,
    and the two trackers agree again afterwards.  In particular the
    clean-up, which one tracker may run and the other not, changes no
    answer. *)
Theorem isDuplicateSignal_ignores_expired_entries
    (now now' : Z) (sym act : string) (m1 m2 : gmap string Z) :
  same_live now m1 m2 → now ≤ now' →
  (isDuplicateSignal now' sym act m1).1 = (isDuplicateSignal now' sym act m2).1
  ∧ same_live now' (isDuplicateSignal now' sym act m1).2
                   (isDuplicateSignal now' sym act m2).2.
Proof.
  intros Hsame Hle. apply (same_live_later _ _ _ _ Hle) in Hsame.
  assert ((isDuplicateSignal now' sym act m1).1 = (isDuplicateSignal now' sym act m2).1)
    as Hans by (by rewrite !isDuplicateSignal_answer, (Hsame (signal_key sym act))).
  split; [done|]. intros k. rewrite !live_after_call, Hans, (Hsame k). done.
Qed.

(** A tracker holding a signal accepted 60 s ago, and an empty one. *)
Lemma isDuplicateSignal_ignores_expired_entries_witness :
  let m1 : gmap string Z := {[ "NSE:SBIN-BUY"%string := t0 ]} in
  (isDuplicateSignal (t0 + 70000) "NSE:SBIN" "BUY" m1).1
    = (isDuplicateSignal (t0 + 70000) "NSE:SBIN" "BUY" ∅).1
  ∧ same_live (t0 + 70000) (isDuplicateSignal (t0 + 70000) "NSE:SBIN" "BUY" m1).2
                           (isDuplicateSignal (t0 + 70000) "NSE:SBIN" "BUY" ∅).2.
Proof.
  apply (isDuplicateSignal_ignores_expired_entries (t0 + 60000) (t0 + 70000)
           "NSE:SBIN" "BUY" {[ "NSE:SBIN-BUY"%string := t0 ]} ∅).
  - intros k. destruct (decide (k = "NSE:SBIN-BUY"%string)) as [->|Hk].
    + rewrite lookup_singleton_eq, lookup_empty. reflexivity.
    + rewrite lookup_singleton_ne, lookup_empty by done. reflexivity.
  - unfold t0. lia.
Defined.

(** ** The webhook handler: every run *)

Lemma wp_bind {A B} (m : M A) (f : A → M B) st Q :
  wp m st (λ r,
    match r.1.1 with
    | Next a => wp (f a) r.1.2 (λ r2, Q (r2.1.1, r2.1.2, r.2 ++ r2.2))
    | Return => Q (Return, r.1.2, r.2)
    | Throw msg => Q (Throw msg, r.1.2, r.2)
    end) →
  wp (m ≫= f) st Q.
Proof.
  unfold wp, mbind, M_bind. destruct (m st) as [[[a| |msg] st1] tr1]; simpl; [|done..].
  by destruct (f a st1) as [[o st2] tr2].
Qed.

Lemma webhook_catch_log cfg w data st :
  webhook cfg w data st = catch_log data (webhook_try cfg w data st).
Proof.
  unfold webhook, catch_log. by destruct (webhook_try cfg w data st) as [[[[]| |msg] st1] tr].
Qed.

Ltac head_of t :=
  lazymatch t with
  | ?f _ => head_of f
  | _ => t
  end.

(** One step of a symbolic run: a bind, a primitive, a stage or a branch. *)
Ltac wp_step :=
  lazymatch goal with
  | |- wp (mbind _ _) _ _ => apply wp_bind
  | |- wp (mret ?a) ?st ?Q => change (Q (Next a, st, []))
  | |- wp (emit ?e) ?st ?Q => change (Q (Next (), st, [e]))
  | |- wp stop ?st ?Q => change (Q (Return, st, []))
  | |- wp (throw ?msg) ?st ?Q => change (Q (Throw msg, st, []))
  | |- wp get_state ?st ?Q => change (Q (Next st, st, []))
  | |- wp (put_state ?st') ?st ?Q => change (Q (Next (), st', []))
  | |- wp (if ?b then _ else _) _ _ => destruct b eqn:?
  | |- wp (match ?x with _ => _ end) _ _ => destruct x eqn:?
  | |- wp (let _ := _ in _) _ _ => cbv zeta
  | |- wp ?m _ _ =>
      let h := head_of m in
      first
        [ unfold h
        | fail 1 "no step for" m ]
  end;
  cbn beta iota; cbn [fst snd negb].

Ltac wp_run := repeat wp_step.

Lemma webhook_try_background cfg w data st :
  webhook_try cfg w data st =
  (authenticate cfg data ;; validate data ;; suppress_duplicate w data ;;
   emit (Respond 200 Received) ;; background cfg w data) st.
Proof. reflexivity. Qed.

(** The head of the handler, case by case. *)
Lemma webhook_head cfg w data st :
  webhook cfg w data st =
    if negb (authorized cfg data) then (st, [Respond 401 Unauthorized])
    else if negb (well_formed data) then (st, [Respond 400 InvalidPayload])
    else
      let result := isDuplicateSignal (now_signal w) (symbol_of data) (action_of data)
                      (recentSignals st) in
      if result.1 then
        (st, [LogWebhookOrder data "skipped" (Some DuplicateSignal) None;
              Respond 200 (Skipped "duplicate signal")])
      else
        let run := catch_log data (background cfg w data (set_recentSignals result.2 st)) in
        (run.1, Respond 200 Received :: run.2).
Proof.
  destruct (authorized cfg data) eqn:Ha; simpl.
  2:{ apply webhook_of_return. rewrite webhook_try_background.
      by rewrite (bind_run_return _ _ _ _ _ (authenticate_rejects _ _ st Ha)). }
  destruct (well_formed data) eqn:Hv; simpl.
  2:{ apply webhook_of_return. rewrite webhook_try_background.
      rewrite (bind_run_next _ _ _ _ _ _ (authenticate_accepts _ _ st Ha)).
      by rewrite (bind_run_return _ _ _ _ _ (validate_rejects _ st Hv)). }
  rewrite webhook_catch_log, webhook_try_background.
  rewrite (bind_run_next _ _ _ _ _ _ (authenticate_accepts _ _ st Ha)).
  rewrite (bind_run_next _ _ _ _ _ _ (validate_accepts _ st Hv)).
  unfold suppress_duplicate, get_state, put_state, logWebhookOrder, emit, stop.
  unfold mbind at 1 2 3 4 5 6, M_bind at 1 2 3 4 5 6. cbn beta iota zeta.
  destruct (isDuplicateSignal _ _ _ _) as [[|] recent1] eqn:Hdup; cbn [fst snd].
  - unfold catch_log. simpl.
    pose proof (isDuplicateSignal_duplicate_keeps (now_signal w) (symbol_of data)
                  (action_of data) (recentSignals st)) as Hkeep.
    rewrite Hdup in Hkeep. simpl in Hkeep. rewrite Hkeep by done. by destruct st.
  - unfold mret, M_ret. cbn beta iota.
    destruct (background cfg w data (set_recentSignals recent1 st))
      as [[[[]| |msg] st2] tr2]; reflexivity.
Qed.

Lemma webhook_response_filter cfg w data st :
  filter (λ e, is_respond e = true) (webhook cfg w data st).2
  = [response_of cfg w data st].
Proof.
  assert (∀ st', filter (λ e, is_respond e = true)
                   (catch_log data (background cfg w data st')).2 = []) as Hbg.
  { intros st'.
    change (wp (background cfg w data) st'
              (λ r, filter (λ e, is_respond e = true) (catch_log data r).2 = [])).
    unfold background. wp_run. all: reflexivity. }
  rewrite webhook_head. unfold response_of.
  destruct (authorized cfg data); simpl; [|done].
  destruct (well_formed data); simpl; [|done].
  destruct (isDuplicateSignal _ _ _ _).1 eqn:Hdup; [done|].
  cbn zeta. cbn [snd]. rewrite filter_cons_True by done. by rewrite Hbg.
Qed.

(** X8.  A call is answered exactly once when its body was parsed and never
    otherwise.  On a parsed body the answer is decided by the head of the
    handler alone: 401 when the token is missing or wrong, 400 when a
    required field is missing (an empty string and the number 0 count as
    missing), 200 "skipped" for a duplicate and 200 "received" otherwise;
    nothing that happens after the acknowledgement (token, instrument,
    positions, funds, order) produces or changes a response.  A request
    whose body was not parsed gets no response. *)
Theorem webhook_answers_once_iff_parsed
    (cfg : config) (w : world) (body : option payload) (st : state) :
  filter (λ e, is_respond e = true) (webhook_request cfg w body st).2
  = match body with
    | Some data => [response_of cfg w data st]
    | None => []
    end
  ∧ count is_respond (webhook_request cfg w body st).2
    = (if body is Some _ then 1 else 0)%nat.
Proof.
  unfold count. destruct body as [data|]; simpl; [|done].
  by rewrite webhook_response_filter.
Qed.

(** X9.  Every call that passes the token and field checks writes exactly one
    order-log entry, whatever happens to it (duplicate, token, instrument,
    risk gate, funds, order, thrown error); a call answered 401 or 400
    writes none.  For an acknowledged call the entry is the last event. *)
Theorem webhook_logs_exactly_once
    (cfg : config) (w : world) (data : payload) (st : state) :
  count is_log (webhook cfg w data st).2
  = (if authorized cfg data && well_formed data then 1 else 0)%nat
  ∧ (response_of cfg w data st = Respond 200 Received →
     is_log <$> last (webhook cfg w data st).2 = Some true).
Proof.
  assert (∀ st', count is_log (catch_log data (background cfg w data st')).2 = 1%nat
                 ∧ is_log <$> last (catch_log data (background cfg w data st')).2
                   = Some true) as Hbg.
  { intros st'.
    change (wp (background cfg w data) st'
              (λ r, count is_log (catch_log data r).2 = 1%nat
                    ∧ is_log <$> last (catch_log data r).2 = Some true)).
    unfold background. wp_run. all: split; reflexivity. }
  rewrite webhook_head. unfold response_of.
  destruct (authorized cfg data); simpl; [|done].
  destruct (well_formed data); simpl; [|done].
  destruct (isDuplicateSignal _ _ _ _).1 eqn:Hdup; [done|].
  cbn zeta. cbn [snd]. destruct (Hbg (set_recentSignals
    (isDuplicateSignal (now_signal w) (symbol_of data) (action_of data)
       (recentSignals st)).2 st)) as [Hone Hlast].
  split.
  - unfold count in *. rewrite filter_cons_False by done. done.
  - intros _. rewrite last_cons.
    destruct (last _) as [e|]; [done|]. done.
Qed.

(** ** The risk gate: no order without every check *)

Lemma count_app p tr1 tr2 : count p (tr1 ++ tr2) = (count p tr1 + count p tr2)%nat.
Proof. unfold count. by rewrite filter_app, length_app. Qed.

Lemma count_never p tr : never p tr → count p tr = 0%nat.
Proof.
  unfold never, count. induction 1 as [|e tr He _ IH]; [done|].
  rewrite filter_cons_False; [done|]. by rewrite He.
Qed.

Lemma capital_check_cases cfg data margin st :
  (capital_check cfg data margin st = (Next (), st, [])
   ∧ (0 < price_of data →
      price_of data * quantity_of data ≤ MAX_CAPITAL_PER_TRADE cfg
      ∧ exceeds_margin (price_of data * quantity_of data) margin = false))
  ∨ (∃ why, capital_check cfg data margin st
            = (Return, st, [LogWebhookOrder data "skipped" (Some why) None])).
Proof.
  unfold capital_check, logWebhookOrder, emit, stop, mbind, M_bind, mret, M_ret.
  case_bool_decide as Hp; [|left; split; [done|]; intros ?; lia]. cbv zeta.
  case_bool_decide as Hc; [right; by eexists|].
  destruct (exceeds_margin _ margin) eqn:Hm; [right; by eexists|].
  left. split; [done|]. intros _. split; [lia|done].
Qed.

Lemma place_order_run w data tok st :
  place_order w data tok st =
    (match order_response w with
     | OrderRejected msg => Throw msg
     | OrderPlaced _ => Next ()
     | OrderPlacedWithoutData msg => Throw msg
     end,
     st,
     PlaceOrder (quantity data) tok (action data) ::
     match order_response w with
     | OrderPlaced order_id => [LogWebhookOrder data "success" None order_id]
     | _ => []
     end).
Proof.
  unfold place_order, logWebhookOrder, emit, throw, mbind, M_bind.
  by destruct (order_response w).
Qed.

(** An order request is sent exactly when the capital check is reached and
    passed; the trace then is the prefix's, the request, and one log entry. *)
Lemma webhook_places_order_iff cfg w data st :
  (count is_place_order (webhook cfg w data st).2 = 0%nat
   ∧ ¬ ∃ tok margin st1 tr1,
         to_capital_check cfg w data st = (Next (tok, margin), st1, tr1)
         ∧ capital_check cfg data margin st1 = (Next (), st1, []))
  ∨ (∃ tok margin st1 tr1 entry,
       to_capital_check cfg w data st = (Next (tok, margin), st1, tr1)
       ∧ capital_check cfg data margin st1 = (Next (), st1, [])
       ∧ (0 < price_of data →
          price_of data * quantity_of data ≤ MAX_CAPITAL_PER_TRADE cfg
          ∧ exceeds_margin (price_of data * quantity_of data) margin = false)
       ∧ entry = order_log w data
       ∧ (webhook cfg w data st).2
         = tr1 ++ [PlaceOrder (quantity data) tok (action data); entry]
       ∧ count is_place_order (webhook cfg w data st).2 = 1%nat).
Proof.
  pose proof (to_capital_check_never_order cfg w data st) as Hquiet.
  rewrite webhook_catch_log, webhook_try_from_capital_check.
  destruct (to_capital_check cfg w data st) as [[[[tok margin]| |msg] st1] tr1] eqn:Hpre;
    simpl in Hquiet; apply count_never in Hquiet.
  - rewrite (bind_run_next _ _ _ _ _ _ Hpre). cbn [fst snd].
    destruct (capital_check_cases cfg data margin st1) as [[Hpass Hcond]|[why Hskip]].
    + right. rewrite (bind_run_next _ _ _ _ _ _ Hpass), place_order_run.
      exists tok, margin, st1, tr1.
      unfold order_log.
      destruct (order_response w) as [msg|oid|msg]; unfold catch_log; cbn [fst snd].
      * exists (LogWebhookOrder data "failed" (Some (ErrorMessage msg)) None).
        rewrite <- app_assoc. split_and!; try done.
        by rewrite count_app, Hquiet.
      * exists (LogWebhookOrder data "success" None oid).
        split_and!; try done. by rewrite count_app, Hquiet.
      * exists (LogWebhookOrder data "failed" (Some (ErrorMessage msg)) None).
        rewrite <- app_assoc. split_and!; try done.
        by rewrite count_app, Hquiet.
    + left. rewrite (bind_run_return _ _ _ _ _ Hskip). unfold catch_log. cbn [fst snd].
      split; [by rewrite count_app, Hquiet|].
      intros (? & ? & ? & ? & ? & Hpass). simplify_eq. by rewrite Hskip in Hpass.
  - left. rewrite (bind_run_return _ _ _ _ _ Hpre). unfold catch_log. cbn [fst snd].
    split; [done|]. by intros (? & ? & ? & ? & ? & _).
  - left. unfold mbind, M_bind. rewrite Hpre. unfold catch_log. cbn [fst snd].
    split; [by rewrite count_app, Hquiet|]. by intros (? & ? & ? & ? & ? & _).
Qed.

Lemma directional_check_passes_only_if data existing st :
  directional_check data existing st = (Next (), st, []) →
  ¬ (action data = Some "BUY"%string ∧ ∃ p, existing = Some p ∧ 0 < p_quantity p)
  ∧ ¬ (action data = Some "SELL"%string ∧ ∃ p, existing = Some p ∧ p_quantity p < 0).
Proof.
  unfold directional_check, strict_eq, logWebhookOrder, emit, stop, mbind, M_bind, mret, M_ret.
  intros Hrun. split.
  - intros (Hact & p & -> & Hq). rewrite Hact in Hrun.
    rewrite (bool_decide_eq_true_2 (Some "BUY"%string = Some "BUY"%string)) in Hrun by done.
    by rewrite (bool_decide_eq_true_2 _ Hq) in Hrun.
  - intros (Hact & p & -> & Hq). rewrite Hact in Hrun.
    rewrite (bool_decide_eq_false_2 (Some "SELL"%string = Some "BUY"%string)) in Hrun by done.
    rewrite (bool_decide_eq_true_2 (Some "SELL"%string = Some "SELL"%string)) in Hrun by done.
    by rewrite (bool_decide_eq_true_2 _ Hq) in Hrun.
Qed.

Lemma ensureValidAccessToken_true w st st1 tr :
  ensureValidAccessToken w st = (Next true, st1, tr) →
  truthy_str (upstoxAccessToken (creds st)) = true
  ∧ dir st1 = dir st ∧ recentSignals st1 = recentSignals st.
Proof.
  rewrite ensureValidAccessToken_run.
  destruct (truthy_str (upstoxAccessToken (creds st))); simpl; [|done].
  destruct (stale _ _); [|by intros ?; simplify_eq].
  destruct (refresh_response w) as [[a r]|]; [|done].
  intros ?. by simplify_eq.
Qed.

Lemma never_elem_of p tr e : never p tr → e ∈ tr → p e = false.
Proof. unfold never. rewrite Forall_forall. intros H ?. by apply H. Qed.

Lemma exceeds_margin_false required margin :
  exceeds_margin required margin = false →
  match margin with
  | Margin m => required ≤ m
  | MarginNull => required ≤ 0
  | MarginUndefined => True
  end.
Proof.
  destruct margin; simpl; [| |done]; intros H%bool_decide_eq_false; lia.
Qed.

(** X10.  The risk gate is sound.  If a run of the handler sends an order
    request, then the request carries the signal's quantity and action and
    the instrument token the directory resolves for its symbol, and every
    gate was passed: the call was authorized, well-formed and not a
    duplicate; an access token was present; the position matched for the
    symbol is not long for a BUY nor short for a SELL; the non-flat
    positions are below the maximum or the symbol has an entry; the quantity
    is not greater than its limit as [>] compares the two, which is the
    numeric comparison as soon as one of them is a number; the funds were
    read; and for a priced signal the value is within the capital limit and
    within the available margin, a [null] margin counting as 0 and a missing
    one as no limit. *)
Theorem order_implies_every_gate
    (cfg : config) (w : world) (data : payload) (st : state)
    (q : option scalar) (tok : string) (a : option string) :
  PlaceOrder q tok a ∈ (webhook cfg w data st).2 →
  let positions := default [] (positions_response w) in
  let existing := existingPosition positions (tradingSymbol data) in
  q = quantity data ∧ a = action data
  ∧ getInstrumentToken (dir st) (symbol_of data) = Some tok ∧ tok ≠ ""%string
  ∧ authorized cfg data = true ∧ well_formed data = true
  ∧ (isDuplicateSignal (now_signal w) (symbol_of data) (action_of data)
       (recentSignals st)).1 = false
  ∧ truthy_str (upstoxAccessToken (creds st)) = true
  ∧ ¬ (action data = Some "BUY"%string ∧ ∃ p, existing = Some p ∧ 0 < p_quantity p)
  ∧ ¬ (action data = Some "SELL"%string ∧ ∃ p, existing = Some p ∧ p_quantity p < 0)
  ∧ ¬ (MAX_TOTAL_POSITIONS cfg ≤ Z.of_nat (length (activePositions positions))
       ∧ existing = None)
  ∧ (∃ qty,
       quantity data = Some qty
       ∧ js_gt qty (MAX_QUANTITY_PER_TRADE cfg) = false
       ∧ ((∃ n, qty = Num n) ∨ (∃ n, MAX_QUANTITY_PER_TRADE cfg = Num n) →
          value qty ≤ value (MAX_QUANTITY_PER_TRADE cfg)))
  ∧ ∃ margin,
      funds_response w = FundsAvailable margin
      ∧ (0 < price_of data →
         price_of data * quantity_of data ≤ MAX_CAPITAL_PER_TRADE cfg
         ∧ match margin with
           | Margin m => price_of data * quantity_of data ≤ m
           | MarginNull => price_of data * quantity_of data ≤ 0
           | MarginUndefined => True
           end).
Proof.
  intros Hin positions existing.
  destruct (webhook_places_order_iff cfg w data st)
    as [[Hzero _]|(tok' & margin & st1 & tr1 & entry & Hcap & _ & Hcond & Hlog & Htr & _)].
  { exfalso. unfold count in Hzero. apply length_zero_iff_nil in Hzero.
    assert (PlaceOrder q tok a ∈ filter (λ e, is_place_order e = true)
              (webhook cfg w data st).2) as Hf by (by apply list_elem_of_filter).
    rewrite Hzero in Hf. by apply elem_of_nil in Hf. }
  pose proof (to_capital_check_never_order cfg w data st) as Hquiet.
  rewrite Hcap in Hquiet. simpl in Hquiet.
  rewrite Htr in Hin. apply elem_of_app in Hin as [Hin|Hin].
  { by pose proof (never_elem_of _ _ _ Hquiet Hin). }
  apply elem_of_cons in Hin as [Heq|Hin].
  2:{ apply list_elem_of_singleton in Hin. rewrite Hlog in Hin. unfold order_log in Hin.
      by destruct (order_response w). }
  injection Heq as -> -> ->.
  apply to_capital_check_reaches in Hcap as (tr2 & Hqty & Hq & Hfunds & _).
  apply to_quantity_check_reaches in Hqty as (ps & Hcount & Hceiling).
  apply to_count_check_reaches in Hcount as (tr3 & Hpos & -> & _ & Hdir).
  apply to_position_checks_reaches in Hpos
    as (Hauth & Hwf & recent & tr4 & Hdup & Hens & _ & Htok & Hne).
  apply ensureValidAccessToken_true in Hens as (Htruthy & Hdir' & _).
  apply directional_check_passes_only_if in Hdir as [Hbuy Hsell].
  rewrite Hdir' in Htok. simpl in Htok, Htruthy.
  split_and!; try done.
  - by rewrite Hdup.
  - destruct (quantity data) as [qty|] eqn:Hqv.
    2:{ unfold well_formed in Hwf. rewrite Hqv in Hwf. simpl in Hwf.
        by rewrite andb_false_r in Hwf. }
    exists qty. split; [done|].
    assert (js_gt qty (MAX_QUANTITY_PER_TRADE cfg) = false) as Hgt.
    { unfold exceeds_quantity_limit in Hq. by rewrite Hqv in Hq. }
    split; [done|]. intros Hnum.
    rewrite (exceeds_quantity_limit_numeric cfg data qty Hqv Hnum) in Hq.
    apply bool_decide_eq_false in Hq. unfold quantity_of in Hq. rewrite Hqv in Hq.
    simpl in Hq. lia.
  - exists margin. split; [done|]. intros Hp. destruct (Hcond Hp) as [Hc Hm].
    split; [done|]. by apply exceeds_margin_false.
Qed.

(** A BUY of 10 SBIN at 200 with no open position: the order goes out. *)
Lemma order_implies_every_gate_witness :
  let w := sample_world t0 [] in
  let d := signal "NSE:SBIN" "BUY" 10 (Some 200) in
  getInstrumentToken (dir sample_state) (symbol_of d) = Some "NSE_EQ|INE062A01020"%string
  ∧ (∃ qty,
       quantity d = Some qty
       ∧ js_gt qty (MAX_QUANTITY_PER_TRADE sample_cfg) = false
       ∧ ((∃ n, qty = Num n) ∨ (∃ n, MAX_QUANTITY_PER_TRADE sample_cfg = Num n) →
          value qty ≤ value (MAX_QUANTITY_PER_TRADE sample_cfg)))
  ∧ ∃ margin,
      funds_response w = FundsAvailable margin
      ∧ (0 < price_of d →
         price_of d * quantity_of d ≤ MAX_CAPITAL_PER_TRADE sample_cfg
         ∧ match margin with
           | Margin m => price_of d * quantity_of d ≤ m
           | MarginNull => price_of d * quantity_of d ≤ 0
           | MarginUndefined => True
           end).
Proof.
  assert (PlaceOrder (Some (Num 10)) "NSE_EQ|INE062A01020" (Some "BUY"%string)
            ∈ (webhook sample_cfg (sample_world t0 [])
                 (signal "NSE:SBIN" "BUY" 10 (Some 200)) sample_state).2) as Hin.
  { apply list_elem_of_In. vm_compute. tauto. }
  pose proof (order_implies_every_gate _ _ _ _ _ _ _ Hin) as H.
  cbv zeta in H. destruct H as (_ & _ & Htok & _ & _ & _ & _ & _ & _ & _ & _ & Hq & Hm).
  cbv zeta. split; [exact Htok|]. split; [exact Hq|]. exact Hm.
Defined.

Lemma to_capital_check_never_success cfg w data :
  quiet is_success_log (to_capital_check cfg w data).
Proof. unfold_stages. solve_quiet. Qed.

(** X11.  The outcome of an order request is always logged, and "success" is
    never logged for anything else.  If a run sends an order request, its
    last event is the log entry for it: "success" with the order id when the
    brokerage accepts with a readable answer, "failed" with the error
    message when the request fails or the answer has no data.  Conversely a
    "success" entry appears only in a run that sent an order request which
    the brokerage accepted. *)
Theorem order_outcome_is_logged
    (cfg : config) (w : world) (data : payload) (st : state) :
  (∀ q tok a,
     PlaceOrder q tok a ∈ (webhook cfg w data st).2 →
     last (webhook cfg w data st).2 = Some (order_log w data)
     ∧ count is_place_order (webhook cfg w data st).2 = 1%nat)
  ∧ (∀ e, e ∈ (webhook cfg w data st).2 → is_success_log e = true →
       count is_place_order (webhook cfg w data st).2 = 1%nat
       ∧ ∃ order_id,
           order_response w = OrderPlaced order_id
           ∧ e = LogWebhookOrder data "success" None order_id).
Proof.
  pose proof (to_capital_check_never_order cfg w data st) as Hno.
  pose proof (to_capital_check_never_success cfg w data st) as Hns.
  destruct (webhook_places_order_iff cfg w data st)
    as [[Hzero Hnot]|(tok' & margin & st1 & tr1 & entry & Hcap & _ & _ & -> & Htr & Hone)].
  - split.
    + intros q tok a Hin. exfalso. unfold count in Hzero.
      apply length_zero_iff_nil in Hzero.
      assert (PlaceOrder q tok a ∈ filter (λ e, is_place_order e = true)
                (webhook cfg w data st).2) as Hf by (by apply list_elem_of_filter).
      rewrite Hzero in Hf. by apply elem_of_nil in Hf.
    + intros e Hin Hsucc. exfalso. revert Hin Hnot.
      rewrite webhook_catch_log, webhook_try_from_capital_check.
      destruct (to_capital_check cfg w data st) as [[[[tok margin]| |msg] st1] tr1] eqn:Hpre;
        simpl in Hns.
      * rewrite (bind_run_next _ _ _ _ _ _ Hpre). cbn [fst snd].
        destruct (capital_check_cases cfg data margin st1) as [[Hpass _]|[why Hskip]].
        { intros _ Hnot. destruct Hnot. by exists tok, margin, st1, tr1. }
        rewrite (bind_run_return _ _ _ _ _ Hskip). unfold catch_log. cbn [fst snd].
        intros Hin _. apply elem_of_app in Hin as [Hin|Hin].
        -- pose proof (never_elem_of _ _ _ Hns Hin). congruence.
        -- apply list_elem_of_singleton in Hin. subst e. done.
      * rewrite (bind_run_return _ _ _ _ _ Hpre). unfold catch_log. cbn [fst snd].
        intros Hin _. pose proof (never_elem_of _ _ _ Hns Hin). congruence.
      * unfold mbind, M_bind. rewrite Hpre. unfold catch_log. cbn [fst snd].
        intros Hin _. apply elem_of_app in Hin as [Hin|Hin].
        -- pose proof (never_elem_of _ _ _ Hns Hin). congruence.
        -- apply list_elem_of_singleton in Hin. subst e. done.
  - rewrite Hcap in Hno, Hns. simpl in Hno, Hns. split.
    + intros q tok a _. split; [|done]. rewrite Htr.
      change [PlaceOrder (quantity data) tok' (action data); order_log w data]
        with ([PlaceOrder (quantity data) tok' (action data)] ++ [order_log w data]).
      by rewrite app_assoc, last_snoc.
    + intros e Hin Hsucc. split; [done|]. rewrite Htr in Hin.
      apply elem_of_app in Hin as [Hin|Hin].
      { pose proof (never_elem_of _ _ _ Hns Hin). congruence. }
      apply elem_of_cons in Hin as [->|Hin]; [done|].
      apply list_elem_of_singleton in Hin. subst e. unfold order_log in *.
      destruct (order_response w) as [msg|oid|msg]; try done. by exists oid.
Qed.

(** X12.  The brokerage is called in a fixed order.  In every run the
    requests sent are at most one token refresh, then the position fetch,
    then the funds fetch, then the order, each at most once and none without
    the ones before it: in particular no order is ever sent without a
    position fetch and a funds fetch in the same run. *)
Theorem webhook_calls_in_order
    (cfg : config) (w : world) (data : payload) (st : state) :
  in_call_order (outbound_calls (webhook cfg w data st).2) = true.
Proof.
  assert (∀ st', in_call_order
                   (outbound_calls (catch_log data (background cfg w data st')).2) = true)
    as Hbg.
  { intros st'.
    change (wp (background cfg w data) st'
              (λ r, in_call_order (outbound_calls (catch_log data r).2) = true)).
    unfold background. wp_run. all: reflexivity. }
  rewrite webhook_head.
  destruct (authorized cfg data); simpl; [|done].
  destruct (well_formed data); simpl; [|done].
  destruct (isDuplicateSignal _ _ _ _).1; [done|].
  cbn zeta. cbn [snd]. unfold outbound_calls. rewrite filter_cons_False by done.
  apply Hbg.
Qed.

(** X13.  What a call can change.  The instrument directory is never
    touched.  The credentials are either left as they were or replaced by
    the answer of a successful refresh, with the expiry set to the clock
    plus 23 hours; and they are left as they were in every run without a
    refresh request.  The duplicate tracker changes only through
    [isDuplicateSignal], and only for an authorized, well-formed call. *)
Theorem webhook_frame (cfg : config) (w : world) (data : payload) (st : state) :
  let st1 := (webhook cfg w data st).1 in
  dir st1 = dir st
  ∧ (creds st1 = creds st
     ∨ ∃ access refresh,
         refresh_response w = Some (access, refresh)
         ∧ creds st1 = Credentials access refresh
                         (Some (now_refreshed w + 23 * 60 * 60 * 1000)))
  ∧ (count is_refresh (webhook cfg w data st).2 = 0%nat → creds st1 = creds st)
  ∧ recentSignals st1 =
      (if authorized cfg data && well_formed data
       then (isDuplicateSignal (now_signal w) (symbol_of data) (action_of data)
               (recentSignals st)).2
       else recentSignals st).
Proof.
  intros st1.
  assert (∀ st',
    let r := catch_log data (background cfg w data st') in
    dir r.1 = dir st'
    ∧ (creds r.1 = creds st'
       ∨ ∃ access refresh,
           refresh_response w = Some (access, refresh)
           ∧ creds r.1 = Credentials access refresh
                           (Some (now_refreshed w + 23 * 60 * 60 * 1000)))
    ∧ (count is_refresh r.2 = 0%nat → creds r.1 = creds st')) as Hbg.
  { intros st'.
    change (wp (background cfg w data) st'
              (λ r0, let r := catch_log data r0 in
                 dir r.1 = dir st'
                 ∧ (creds r.1 = creds st'
                    ∨ ∃ access refresh,
                        refresh_response w = Some (access, refresh)
                        ∧ creds r.1 = Credentials access refresh
                                        (Some (now_refreshed w + 23 * 60 * 60 * 1000)))
                 ∧ (count is_refresh r.2 = 0%nat → creds r.1 = creds st'))).
    unfold background. wp_run.
    all: cbv zeta; split; [reflexivity|]; split;
      [ first [ left; reflexivity
              | right; eexists _, _; split; reflexivity ]
      | first [ intros _; reflexivity | intros Hc; discriminate Hc ] ]. }
  pose proof (Hbg (set_recentSignals
    (isDuplicateSignal (now_signal w) (symbol_of data) (action_of data)
       (recentSignals st)).2 st)) as (Hdir & Hcreds & Hsame).
  clear Hbg. split_and!.
  - subst st1. rewrite webhook_head.
    destruct (authorized cfg data); simpl; [|done].
    destruct (well_formed data); simpl; [|done].
    destruct (isDuplicateSignal _ _ _ _).1; [done|].
    cbn zeta. cbn [fst]. exact Hdir.
  - subst st1. rewrite webhook_head.
    destruct (authorized cfg data); simpl; [|by left].
    destruct (well_formed data); simpl; [|by left].
    destruct (isDuplicateSignal _ _ _ _).1; [by left|].
    cbn zeta. cbn [fst]. exact Hcreds.
  - subst st1. rewrite webhook_head.
    destruct (authorized cfg data); simpl; [|done].
    destruct (well_formed data); simpl; [|done].
    destruct (isDuplicateSignal _ _ _ _).1; [done|].
    cbn zeta. cbn [fst snd]. unfold count. rewrite filter_cons_False by done.
    exact Hsame.
  - apply webhook_tracker.
Qed.

(** ** The margin test, the window's far side, and the head's edge cases *)

(** X14.  Margin sufficiency.  Let a priced signal reach the capital check
    with a value within the capital limit.  If the brokerage reports an
    available margin below the value, or reports [null] for it while the
    value is positive, the handler ends with a log entry "skipped" for
    insufficient margin (its text ends "avail: null" in the second case) and
    sends no order.  If the reported margin covers the value, or the funds
    answer has no available margin at all, the order request is sent. *)
Theorem margin_test_applies_to_reported_margin
    (cfg : config) (w : world) (data : payload) (st : state)
    (tok : string) (margin : margin_value) (st1 : state) (tr1 : list event) :
  to_capital_check cfg w data st = (Next (tok, margin), st1, tr1) →
  0 < price_of data →
  price_of data * quantity_of data ≤ MAX_CAPITAL_PER_TRADE cfg →
  let requiredCapital := price_of data * quantity_of data in
  ((∃ m, margin = Margin m ∧ m < requiredCapital)
   ∨ (margin = MarginNull ∧ 0 < requiredCapital) →
     webhook cfg w data st =
       (st1, tr1 ++ [LogWebhookOrder data "skipped"
                       (Some (InsufficientMargin requiredCapital margin)) None])
     ∧ never is_place_order (webhook cfg w data st).2)
  ∧ ((∃ m, margin = Margin m ∧ requiredCapital ≤ m)
     ∨ (margin = MarginNull ∧ requiredCapital ≤ 0)
     ∨ margin = MarginUndefined →
     (webhook cfg w data st).2 =
       tr1 ++ [PlaceOrder (quantity data) tok (action data); order_log w data])
  ∧ reason_text (InsufficientMargin requiredCapital MarginNull)
    = "insufficient margin (req: " +:+ pretty requiredCapital +:+ ", avail: null)".
Proof.
  intros Hreach Hp Hc requiredCapital.
  pose proof (to_capital_check_never_order cfg w data st) as Hno.
  rewrite Hreach in Hno. simpl in Hno. split_and!; [| |done].
  - intros Hlow.
    assert (exceeds_margin requiredCapital margin = true) as Hex.
    { destruct Hlow as [(m & -> & Hm)|[-> Hpos]]; simpl; by apply bool_decide_eq_true_2. }
    assert (capital_check cfg data margin st1 =
      (Return, st1,
       [LogWebhookOrder data "skipped"
          (Some (InsufficientMargin requiredCapital margin)) None]))
      as Hskip.
    { unfold capital_check. rewrite bool_decide_eq_true_2 by done. cbv zeta.
      rewrite bool_decide_eq_false_2 by lia. fold requiredCapital. by rewrite Hex. }
    assert (webhook cfg w data st =
      (st1, tr1 ++ [LogWebhookOrder data "skipped"
                      (Some (InsufficientMargin requiredCapital margin)) None])) as Hrun.
    { apply webhook_of_return.
      rewrite webhook_try_from_capital_check, (bind_run_next _ _ _ _ _ _ Hreach).
      by rewrite (bind_run_return _ _ _ _ _ Hskip). }
    rewrite Hrun. split; [done|]. simpl. apply never_app; [done|]. by repeat constructor.
  - intros Hok.
    assert (exceeds_margin requiredCapital margin = false) as Hex.
    { destruct Hok as [(m & -> & Hm)|[[-> Hpos]| ->]]; simpl; [| |done];
        apply bool_decide_eq_false_2; lia. }
    assert (capital_check cfg data margin st1 = (Next (), st1, [])) as Hpass.
    { unfold capital_check. rewrite bool_decide_eq_true_2 by done. cbv zeta.
      rewrite bool_decide_eq_false_2 by lia. fold requiredCapital. by rewrite Hex. }
    rewrite webhook_catch_log.
    rewrite webhook_try_from_capital_check, (bind_run_next _ _ _ _ _ _ Hreach).
    rewrite (bind_run_next _ _ _ _ _ _ Hpass), place_order_run. unfold order_log.
    destruct (order_response w); unfold catch_log; cbn [fst snd];
      by rewrite <- ?app_assoc.
Qed.

(** Value 4000 against a funds answer whose available margin is [null]. *)
Lemma margin_test_applies_to_reported_margin_witness :
  let w := World t0 t0 None t0 true (Some []) (FundsAvailable MarginNull)
             (OrderPlaced (Some "240101000000001"%string)) in
  let d := signal "NSE:SBIN" "BUY" 20 (Some 200) in
  webhook sample_cfg w d sample_state =
    (State (creds sample_state) {[ "NSE:SBIN-BUY"%string := t0 ]} (dir sample_state),
     [Respond 200 Received; GetPositions; GetFunds] ++
     [LogWebhookOrder d "skipped" (Some (InsufficientMargin (200 * 20) MarginNull)) None])
  ∧ never is_place_order (webhook sample_cfg w d sample_state).2.
Proof.
  apply (proj1 (margin_test_applies_to_reported_margin sample_cfg
                  (World t0 t0 None t0 true (Some []) (FundsAvailable MarginNull)
                     (OrderPlaced (Some "240101000000001"%string)))
                  (signal "NSE:SBIN" "BUY" 20 (Some 200)) sample_state
                  "NSE_EQ|INE062A01020" MarginNull
                  (State (creds sample_state) {[ "NSE:SBIN-BUY"%string := t0 ]}
                     (dir sample_state))
                  [Respond 200 Received; GetPositions; GetFunds]
                  eq_refl eq_refl ltac:(vm_compute; discriminate))).
  right. split; [reflexivity|]. vm_compute. reflexivity.
Defined.

(** X15.  The far side of the window.  An authorized, well-formed signal
    whose pair has no entry in the tracker, or an entry at least 60000 ms
    old, is acknowledged "received" and recorded at the current clock
    reading: at exactly 60000 ms the signal is accepted again. *)
Theorem signal_after_window_is_acknowledged
    (cfg : config) (w : world) (data : payload) (st : state) :
  authorized cfg data = true → well_formed data = true →
  (∀ t, recentSignals st !! signal_key (symbol_of data) (action_of data) = Some t →
        60000 ≤ now_signal w - t) →
  filter (λ e, is_respond e = true) (webhook cfg w data st).2 = [Respond 200 Received]
  ∧ recentSignals (webhook cfg w data st).1
      !! signal_key (symbol_of data) (action_of data) = Some (now_signal w).
Proof.
  intros Ha Hv Hold.
  assert ((isDuplicateSignal (now_signal w) (symbol_of data) (action_of data)
             (recentSignals st)).1 = false) as Hacc.
  { rewrite isDuplicateSignal_answer. apply bool_decide_eq_false_2.
    rewrite live_is_Some. intros (t & Ht & _ & Hw). specialize (Hold t Ht).
    unfold DUPLICATE_SIGNAL_WINDOW in Hw. lia. }
  split.
  - rewrite webhook_response_filter. unfold response_of. by rewrite Ha, Hv, Hacc.
  - rewrite webhook_tracker, Ha, Hv. simpl. by apply isDuplicateSignal_records_accepted.
Qed.

(** The same BUY exactly 60000 ms after it was accepted. *)
Lemma signal_after_window_is_acknowledged_witness :
  let d := signal "NSE:SBIN" "BUY" 10 (Some 200) in
  let st1 := (webhook sample_cfg (sample_world t0 []) d sample_state).1 in
  filter (λ e, is_respond e = true)
    (webhook sample_cfg (sample_world (t0 + 60000) []) d st1).2 = [Respond 200 Received]
  ∧ recentSignals (webhook sample_cfg (sample_world (t0 + 60000) []) d st1).1
      !! "NSE:SBIN-BUY"%string = Some (t0 + 60000).
Proof.
  apply (signal_after_window_is_acknowledged sample_cfg (sample_world (t0 + 60000) [])
           (signal "NSE:SBIN" "BUY" 10 (Some 200))
           (webhook sample_cfg (sample_world t0 []) (signal "NSE:SBIN" "BUY" 10 (Some 200))
              sample_state).1 eq_refl eq_refl).
  intros t Ht. vm_compute in Ht. injection Ht as <-. vm_compute. discriminate.
Defined.

(** X16.  A secret that is not configured admits nobody.  When
    [WEBHOOK_SECRET] is unset or empty, no call, whatever its token, has any
    effect beyond its answer: a parsed body is answered 401 (an empty token
    is rejected before it is compared, so it never matches an empty secret),
    and a request whose body was not parsed is not answered. *)
Theorem unset_secret_admits_no_call
    (cfg : config) (w : world) (body : option payload) (st : state) :
  WEBHOOK_SECRET cfg = None ∨ WEBHOOK_SECRET cfg = Some ""%string →
  webhook_request cfg w body st
  = (st, if body is Some _ then [Respond 401 Unauthorized] else []).
Proof.
  intros Hsecret. destruct body as [data|]; simpl; [|done]. rewrite webhook_head.
  assert (authorized cfg data = false) as ->; [|done].
  unfold authorized, strict_eq. destruct (token data) as [t|] eqn:Ht; [|done].
  apply andb_false_iff. destruct (decide (t = ""%string)) as [->|Hne]; [by left|].
  right. apply bool_decide_eq_false_2. intros Heq.
  destruct Hsecret as [Hs|Hs]; congruence.
Qed.

(** An empty token against an empty secret. *)
Lemma unset_secret_admits_no_call_witness :
  let cfg := Config (Some ""%string) 10000 5 (Num 100) in
  let d := Payload (Some ""%string) (Some "NSE:SBIN"%string) (Some "BUY"%string)
             (Some (Num 10)) None in
  webhook_request cfg (sample_world t0 []) (Some d) sample_state
  = (sample_state, [Respond 401 Unauthorized]).
Proof.
  apply (unset_secret_admits_no_call (Config (Some ""%string) 10000 5 (Num 100))
           (sample_world t0 [])
           (Some (Payload (Some ""%string) (Some "NSE:SBIN"%string) (Some "BUY"%string)
                    (Some (Num 10)) None)) sample_state).
  by right.
Defined.

(** X17.  A call with the right token and a missing field is answered 400 and
    has no other effect; a symbol or an action that is the empty string and a
    quantity that is the number 0 count as missing. *)
Theorem malformed_webhook_only_responds_400
    (cfg : config) (w : world) (data : payload) (st : state) :
  authorized cfg data = true →
  symbol data = None ∨ symbol data = Some ""%string
  ∨ action data = None ∨ action data = Some ""%string
  ∨ quantity data = None ∨ quantity data = Some (Num 0) →
  webhook cfg w data st = (st, [Respond 400 InvalidPayload]).
Proof.
  intros Ha Hmissing. rewrite webhook_head, Ha. simpl.
  assert (well_formed data = false) as ->; [|done].
  unfold well_formed.
  destruct Hmissing as [ -> | [ -> | [ -> | [ -> | [ -> | -> ]]]]]; simpl;
    rewrite ?andb_false_r; done.
Qed.

(** A BUY of quantity 0. *)
Lemma malformed_webhook_only_responds_400_witness :
  webhook sample_cfg (sample_world t0 []) (signal "NSE:SBIN" "BUY" 0 None) sample_state
  = (sample_state, [Respond 400 InvalidPayload]).
Proof.
  apply (malformed_webhook_only_responds_400 sample_cfg (sample_world t0 [])
           (signal "NSE:SBIN" "BUY" 0 None) sample_state eq_refl).
  do 5 right. reflexivity.
Defined.

(** ** The token lifecycle *)

(** Credentials with a non-empty access token need no refresh before
    [tokenExpiryTime - 60000]. *)
Lemma ensureValidAccessToken_fresh w st now :
  truthy_str (upstoxAccessToken (creds st)) = true →
  tokenExpiryTime (creds st) = Some (refreshed_expiry now) →
  now_token_check w < fresh_until now →
  ensureValidAccessToken w st = (Next true, st, []).
Proof.
  intros Htok Hexp Hnow. rewrite ensureValidAccessToken_run, Htok. simpl.
  unfold stale. rewrite Hexp. simpl.
  rewrite bool_decide_eq_false_2; [done|].
  unfold fresh_until, refreshed_expiry in *. lia.
Qed.

Lemma ensureValidAccessToken_absent w st :
  truthy_str (upstoxAccessToken (creds st)) = false →
  ensureValidAccessToken w st = (Next false, st, []).
Proof. intros Htok. by rewrite ensureValidAccessToken_run, Htok. Qed.

(** X18.  Loading at start-up.  [loadTokensFromDB] returns true exactly when
    the storage answers with at least one row; it then installs the first
    row's pair with an expiry 23 hours after the load, and otherwise leaves
    the credentials as they were.  A loaded non-empty access token is
    accepted by [ensureValidAccessToken] without any refresh request until
    23 hours less 60 seconds after the load; a loaded row whose access token
    is empty or missing still makes the load return true, and the server is
    then without a valid token. *)
Theorem loaded_tokens_valid_until_refresh_window
    (rows : option (list token_row)) (now : Z) (st : state) :
  let '(o, st1, tr) := loadTokensFromDB rows now st in
  tr = [] ∧ dir st1 = dir st ∧ recentSignals st1 = recentSignals st
  ∧ match rows with
    | Some (row :: _) =>
        o = Next true
        ∧ creds st1 = Credentials (access_token row) (refresh_token row)
                        (Some (now + 23 * 60 * 60 * 1000))
        ∧ (∀ w, truthy_str (access_token row) = true →
                now_token_check w < fresh_until now →
                ensureValidAccessToken w st1 = (Next true, st1, []))
        ∧ (∀ w, truthy_str (access_token row) = false →
                ensureValidAccessToken w st1 = (Next false, st1, []))
    | _ => o = Next false ∧ st1 = st
    end.
Proof.
  unfold loadTokensFromDB. destruct rows as [[|row rest]|]; [done| |done].
  unfold get_state, put_state, mbind, M_bind, mret, M_ret. simpl.
  split_and!; try done.
  - intros w Htok Hnow. by apply (ensureValidAccessToken_fresh _ _ now).
  - intros w Htok. by apply ensureValidAccessToken_absent.
Qed.

(** X19.  The OAuth callback installs credentials only from an exchange that
    returned a non-empty access token.  Without a code the answer is "No auth
    code received" (400), after a failed exchange it is "Auth Failed" (500),
    after an answer without access token it is "Failed to obtain access
    token" (500), and in all three cases the credentials are untouched and
    nothing is written to storage.  Otherwise the pair of the answer is
    installed with an expiry 23 hours ahead, the stored pair is replaced (a
    delete, then an insert if the delete succeeded), the caller is redirected
    with that access token, and [ensureValidAccessToken] accepts it without a
    refresh request until 23 hours less 60 seconds later. *)
Theorem authCallback_installs_only_a_token
    (w : world) (code query_state : option string)
    (exchange : option (option string * option string)) (now : Z) (st : state) :
  let '(o, st1, tr) := authCallback w code query_state exchange now st in
  dir st1 = dir st ∧ recentSignals st1 = recentSignals st
  ∧ ((st1 = st ∧ tr = []
      ∧ ((o = Next NoAuthCode ∧ truthy_str code = false)
         ∨ (o = Next AuthFailed ∧ truthy_str code = true ∧ exchange = None)
         ∨ (o = Next NoAccessToken ∧ truthy_str code = true
            ∧ ∃ access refresh,
                exchange = Some (access, refresh) ∧ truthy_str access = false)))
     ∨ (∃ access refresh return_url,
          truthy_str code = true
          ∧ exchange = Some (Some access, refresh) ∧ access ≠ ""%string
          ∧ o = Next (RedirectWithToken return_url access)
          ∧ creds st1 = Credentials (Some access) refresh
                          (Some (now + 23 * 60 * 60 * 1000))
          ∧ tr = DeleteTokens ::
                 (if delete_tokens_ok w then [InsertTokens (Some access) refresh] else [])
          ∧ ∀ w', now_token_check w' < fresh_until now →
                  ensureValidAccessToken w' st1 = (Next true, st1, []))).
Proof.
  unfold authCallback.
  destruct (truthy_str code) eqn:Hcode; simpl.
  2:{ split_and!; try done. left. split_and!; try done. by left. }
  destruct exchange as [[access refresh]|].
  2:{ split_and!; try done. left. split_and!; try done. by right; left. }
  destruct (truthy_str access) eqn:Hacc; simpl.
  2:{ split_and!; try done. left. split_and!; try done. right; right.
      split_and!; try done. by exists access, refresh. }
  destruct access as [access|]; [|done].
  unfold saveTokensToDB, get_state, put_state, emit, mbind, M_bind, mret, M_ret.
  destruct (delete_tokens_ok w) eqn:Hdel; simpl.
  all: split_and!; try done; right; eexists access, refresh, _.
  all: split_and!; try done.
  all: try (intros ->; done).
  all: intros w' Hnow; by apply (ensureValidAccessToken_fresh _ _ now).
Qed.

(** X20.  A refresh is good for the next 23 hours, if it brought a token.
    When [ensureValidAccessToken] refreshes and the answer carries a
    non-empty access token, every call before 23 hours less 60 seconds after
    the refresh returns true without a request.  When the answer carries no
    access token, the call that refreshed still returns true, but the stored
    access token is then gone and every later call returns false without a
    request. *)
Theorem refreshed_token_valid_until_next_window (w : world) (st : state)
    (access refresh : option string) :
  truthy_str (upstoxAccessToken (creds st)) = true →
  stale (now_token_check w) (creds st) = true →
  refresh_response w = Some (access, refresh) →
  let '(o, st1, tr) := ensureValidAccessToken w st in
  o = Next true
  ∧ (truthy_str access = true →
     ∀ w', now_token_check w' < fresh_until (now_refreshed w) →
           ensureValidAccessToken w' st1 = (Next true, st1, []))
  ∧ (truthy_str access = false →
     ∀ w', ensureValidAccessToken w' st1 = (Next false, st1, [])).
Proof.
  intros Htok Hstale Hresp. rewrite ensureValidAccessToken_run, Htok, Hstale, Hresp. simpl.
  split_and!; [done| |].
  - intros Hacc w' Hnow. by apply (ensureValidAccessToken_fresh _ _ (now_refreshed w)).
  - intros Hacc w'. by apply ensureValidAccessToken_absent.
Qed.

(** A stale token and a refresh that brings a new pair. *)
Lemma refreshed_token_valid_until_next_window_witness :
  let w := World t0 (t0 + 90000000) (Some (Some "access-2", Some "refresh-2")%string)
             (t0 + 90000000) true None FundsUnavailable (OrderRejected "") in
  let '(o, st1, tr) := ensureValidAccessToken w sample_state in
  o = Next true
  ∧ (truthy_str (Some "access-2"%string) = true →
     ∀ w', now_token_check w' < fresh_until (now_refreshed w) →
           ensureValidAccessToken w' st1 = (Next true, st1, []))
  ∧ (truthy_str (Some "access-2"%string) = false →
     ∀ w', ensureValidAccessToken w' st1 = (Next false, st1, [])).
Proof.
  exact (refreshed_token_valid_until_next_window
           (World t0 (t0 + 90000000) (Some (Some "access-2", Some "refresh-2")%string)
              (t0 + 90000000) true None FundsUnavailable (OrderRejected ""))
           sample_state (Some "access-2"%string) (Some "refresh-2"%string)
           eq_refl eq_refl eq_refl).
Defined.

(** X21.  The scheduled job.  It sends a refresh request exactly when a
    refresh token and an access token are stored and the access token is
    within 60 seconds of its expiry or past it; in every other case (no
    refresh token, no access token, or an access token with more than 60
    seconds left) it sends nothing and changes nothing.  It never throws. *)
Theorem scheduledRefresh_refreshes_only_when_stale (w : world) (st : state) :
  let '(o, st1, tr) := scheduledRefresh w st in
  o = Next ()
  ∧ (count is_refresh tr = 1%nat
     ↔ truthy_str (upstoxRefreshToken (creds st)) = true
       ∧ truthy_str (upstoxAccessToken (creds st)) = true
       ∧ stale (now_token_check w) (creds st) = true)
  ∧ (count is_refresh tr = 0%nat → st1 = st ∧ tr = []).
Proof.
  unfold scheduledRefresh, get_state. unfold mbind at 1, M_bind at 1.
  destruct (truthy_str (upstoxRefreshToken (creds st))) eqn:Href; simpl.
  2:{ split_and!; try done. split; [done|]. by intros (? & _). }
  unfold mbind, M_bind. rewrite ensureValidAccessToken_run.
  destruct (truthy_str (upstoxAccessToken (creds st))) eqn:Htok; simpl.
  2:{ split_and!; try done. split; [done|]. by intros (_ & ? & _). }
  destruct (stale (now_token_check w) (creds st)) eqn:Hstale.
  2:{ split_and!; try done. split; [done|]. by intros (_ & _ & ?). }
  destruct (refresh_response w) as [[access refresh]|]; simpl.
  - unfold refresh_trace. destruct (delete_tokens_ok w); simpl; split_and!; done.
  - split_and!; done.
Qed.

(** ** Instrument search *)

Lemma insert_before_Permutation {A} (cmp : A → A → Z) x l :
  insert_before cmp x l ≡ₚ x :: l.
Proof.
  induction l as [|y l IH]; simpl; [done|].
  case_bool_decide; [done|]. by rewrite IH, Permutation_swap.
Qed.

Lemma stable_sort_Permutation {A} (cmp : A → A → Z) l :
  stable_sort cmp l ≡ₚ l.
Proof.
  induction l as [|x l IH]; simpl; [done|].
  by rewrite insert_before_Permutation, IH.
Qed.

(** The comparator orders by rank. *)
Lemma by_relevance_rank up query a b :
  by_relevance up query a b
  = match rank up query a ?= rank up query b with
    | Lt => -1 | Eq => 0 | Gt => 1
    end.
Proof.
  unfold by_relevance, rank. cbv zeta.
  destruct (String.eqb (upper up (trading_symbol (entry_instrument a))) query),
    (String.eqb (upper up (trading_symbol (entry_instrument b))) query),
    (startsWith (upper up (trading_symbol (entry_instrument a))) query),
    (startsWith (upper up (trading_symbol (entry_instrument b))) query),
    (bool_decide (instrument_type a = Some "EQUITY"%string)),
    (bool_decide (instrument_type b = Some "EQUITY"%string)); reflexivity.
Qed.

Lemma by_relevance_le up query a b :
  by_relevance up query a b ≤ 0 ↔ rank up query a ≤ rank up query b.
Proof.
  rewrite by_relevance_rank.
  destruct (Z.compare_spec (rank up query a) (rank up query b)); lia.
Qed.

Lemma by_relevance_tied up query a b :
  by_relevance up query a b = 0 ↔ rank up query a = rank up query b.
Proof.
  rewrite by_relevance_rank.
  destruct (Z.compare_spec (rank up query a) (rank up query b)); lia.
Qed.

(** Sorting by a comparator that orders by a rank. *)
Lemma insert_before_sorted {A} (cmp : A → A → Z) (rk : A → Z) x l :
  (∀ a b, cmp a b ≤ 0 ↔ rk a ≤ rk b) →
  StronglySorted (λ a b, rk a ≤ rk b) l →
  StronglySorted (λ a b, rk a ≤ rk b) (insert_before cmp x l).
Proof.
  intros Hcmp. induction 1 as [|y l Hl IH Hy]; simpl.
  { repeat constructor. }
  case_bool_decide as Hxy.
  - constructor; [by constructor|]. apply Hcmp in Hxy.
    constructor; [done|]. eapply Forall_impl; [done|]. simpl. lia.
  - constructor; [done|]. rewrite insert_before_Permutation.
    constructor; [|done]. rewrite Hcmp in Hxy. lia.
Qed.

Lemma stable_sort_sorted {A} (cmp : A → A → Z) (rk : A → Z) l :
  (∀ a b, cmp a b ≤ 0 ↔ rk a ≤ rk b) →
  StronglySorted (λ a b, rk a ≤ rk b) (stable_sort cmp l).
Proof.
  intros Hcmp. induction l as [|x l IH]; simpl; [constructor|].
  by apply insert_before_sorted.
Qed.

Lemma insert_before_stable {A} (cmp : A → A → Z) (rk : A → Z) (r : Z) x l :
  (∀ a b, cmp a b ≤ 0 ↔ rk a ≤ rk b) →
  filter (λ y, rk y = r) (insert_before cmp x l) = filter (λ y, rk y = r) (x :: l).
Proof.
  intros Hcmp. induction l as [|y l IH]; simpl; [done|].
  case_bool_decide as Hxy; [done|]. rewrite Hcmp in Hxy.
  rewrite (filter_cons _ y), IH, !(filter_cons _ x), (filter_cons _ y).
  repeat case_decide; try done; lia.
Qed.

Lemma stable_sort_stable {A} (cmp : A → A → Z) (rk : A → Z) (r : Z) l :
  (∀ a b, cmp a b ≤ 0 ↔ rk a ≤ rk b) →
  filter (λ y, rk y = r) (stable_sort cmp l) = filter (λ y, rk y = r) l.
Proof.
  intros Hcmp. induction l as [|x l IH]; simpl; [done|].
  rewrite (insert_before_stable _ rk) by done.
  by rewrite !filter_cons, IH.
Qed.

Lemma prefix_refl s : String.prefix s s = true.
Proof.
  induction s as [|c s IH]; simpl; [done|]. by destruct (ascii_dec c c).
Qed.

Lemma includes_refl s : includes s s = true.
Proof.
  destruct s as [|c s]; [done|].
  unfold includes; fold includes. by rewrite prefix_refl.
Qed.

Lemma search_unfold up q type values :
  search up q type values
  = match q with
    | Some s =>
        if (String.length (up s) <? 2)%nat then []
        else take 50 (stable_sort (by_relevance up (up s))
                        (filter (λ inst, matches up (up s) (up <$> type) inst = true)
                           values))
    | None => []
    end.
Proof.
  unfold search. destruct q as [s|]; simpl; [|done].
  destruct (up s) as [|c rest] eqn:Hs; simpl; [done|].
  done.
Qed.

Lemma StronglySorted_weaken {A} (R R' : A → A → Prop) l :
  (∀ a b, R a b → R' a b) → StronglySorted R l → StronglySorted R' l.
Proof.
  intros HR. induction 1 as [|x l Hl IH Hx]; constructor; [done|].
  eapply Forall_impl; [done|]. auto.
Qed.

Lemma filter_take_prefix {A} (P : A → Prop) `{!∀ x, Decision (P x)} n (l : list A) :
  filter P (take n l) `prefix_of` filter P l.
Proof.
  rewrite <-(take_drop n l) at 2. rewrite filter_app. by apply prefix_app_r.
Qed.

(** X22.  What a search returns.  The answer has at most 50 entries; each
    is one of the enumerated objects, the upper-cased query has at least two
    characters and occurs in the entry's upper-cased trading symbol or name,
    and under a type filter EQUITY, FUTURE or OPTION the entry's upper-cased
    instrument type is EQUITY, starts with FUT, or starts with OPT.  In
    particular a missing or one-character query returns nothing. *)
Theorem search_results_match_the_query (toUpperCase : string → string)
    (q type : option string) (values : list catalog_entry) :
  let results := search toUpperCase q type values in
  (length results ≤ 50)%nat
  ∧ ∀ inst, inst ∈ results →
      inst ∈ values
      ∧ ∃ s, q = Some s ∧ (2 ≤ String.length (toUpperCase s))%nat
        ∧ (includes (upper toUpperCase (trading_symbol (entry_instrument inst)))
             (toUpperCase s) = true
           ∨ includes (upper toUpperCase (name inst)) (toUpperCase s) = true)
        ∧ (toUpperCase <$> type = Some "EQUITY"%string →
           upper toUpperCase (instrument_type inst) = "EQUITY"%string)
        ∧ (toUpperCase <$> type = Some "FUTURE"%string →
           startsWith (upper toUpperCase (instrument_type inst)) "FUT" = true)
        ∧ (toUpperCase <$> type = Some "OPTION"%string →
           startsWith (upper toUpperCase (instrument_type inst)) "OPT" = true).
Proof.
  cbv zeta. rewrite search_unfold. destruct q as [s|]; [|split; [simpl; lia|]].
  2:{ intros inst Hin. by apply elem_of_nil in Hin. }
  destruct (Nat.ltb_spec (String.length (toUpperCase s)) 2) as [Hlen|Hlen].
  { split; [simpl; lia|]. intros inst Hin. by apply elem_of_nil in Hin. }
  split; [rewrite length_take; lia|].
  intros inst Hin. apply elem_of_take in Hin as (i & Hin & _).
  apply list_elem_of_lookup_2 in Hin.
  rewrite stable_sort_Permutation in Hin.
  apply list_elem_of_filter in Hin as [Hm Hin]. split; [done|].
  exists s. split_and!; [done|done|..].
  - unfold matches in Hm. cbv zeta in Hm.
    destruct (includes _ _ || includes _ _) eqn:Hq; [|done].
    by apply orb_true_iff in Hq.
  - intros Hty. unfold matches in Hm. cbv zeta in Hm. rewrite Hty in Hm.
    destruct (negb _); [done|]. simpl in Hm. by apply String.eqb_eq in Hm.
  - intros Hty. unfold matches in Hm. cbv zeta in Hm. rewrite Hty in Hm.
    destruct (negb _); [done|]. by simpl in Hm.
  - intros Hty. unfold matches in Hm. cbv zeta in Hm. rewrite Hty in Hm.
    destruct (negb _); [done|]. by simpl in Hm.
Qed.

(** X23.  The answer is ordered by relevance: no entry is listed after one
    that the comparator places strictly behind it.  An exact symbol match
    precedes every other entry, a symbol that starts with the query precedes
    one that does not, and among those an equity precedes the others. *)
Theorem search_results_ordered_by_relevance (toUpperCase : string → string)
    (q type : option string) (values : list catalog_entry) :
  StronglySorted
    (λ a b, by_relevance toUpperCase (default ""%string (toUpperCase <$> q)) a b ≤ 0)
    (search toUpperCase q type values).
Proof.
  rewrite search_unfold. destruct q as [s|]; [|constructor]. simpl.
  destruct (String.length (toUpperCase s) <? 2)%nat; [constructor|].
  eapply (StronglySorted_weaken (λ a b, rank toUpperCase (toUpperCase s) a
                                        ≤ rank toUpperCase (toUpperCase s) b)).
  { intros a b. by rewrite by_relevance_le. }
  set (sorted := stable_sort _ _).
  assert (StronglySorted (λ a b, rank toUpperCase (toUpperCase s) a
                                 ≤ rank toUpperCase (toUpperCase s) b) sorted) as Hs.
  { apply stable_sort_sorted. intros a b. apply by_relevance_le. }
  rewrite <-(take_drop 50 sorted) in Hs. by apply StronglySorted_app_1_l in Hs.
Qed.

Lemma rank_exact up query a :
  rank up query a < 4 ↔ upper up (trading_symbol (entry_instrument a)) = query.
Proof.
  unfold rank. cbv zeta. rewrite <-String.eqb_eq.
  destruct (String.eqb _ query), (startsWith _ query), (bool_decide _); split; (done || lia).
Qed.

(** X24.  An exact symbol match comes first.  When one of the enumerated
    objects passes the filter and its upper-cased trading symbol is the
    upper-cased query, the first entry of the answer has exactly that
    symbol. *)
Theorem exact_symbol_match_is_listed_first (toUpperCase : string → string)
    (s : string) (type : option string) (values : list catalog_entry)
    (inst : catalog_entry) :
  (2 ≤ String.length (toUpperCase s))%nat →
  inst ∈ values →
  matches toUpperCase (toUpperCase s) (toUpperCase <$> type) inst = true →
  upper toUpperCase (trading_symbol (entry_instrument inst)) = toUpperCase s →
  ∃ first, head (search toUpperCase (Some s) type values) = Some first
    ∧ upper toUpperCase (trading_symbol (entry_instrument first)) = toUpperCase s.
Proof.
  intros Hlen Hin Hm Hexact. rewrite search_unfold.
  destruct (Nat.ltb_spec (String.length (toUpperCase s)) 2) as [?|_]; [lia|].
  set (sorted := stable_sort _ _).
  assert (inst ∈ sorted) as Hsorted.
  { unfold sorted. rewrite stable_sort_Permutation. by apply list_elem_of_filter. }
  assert (StronglySorted (λ a b, rank toUpperCase (toUpperCase s) a
                                 ≤ rank toUpperCase (toUpperCase s) b) sorted) as Hs.
  { apply stable_sort_sorted. intros a b. apply by_relevance_le. }
  destruct sorted as [|first rest]; [by apply elem_of_nil in Hsorted|].
  exists first. split; [done|]. apply rank_exact.
  apply rank_exact in Hexact.
  apply StronglySorted_cons in Hs as [Hfirst _].
  apply elem_of_cons in Hsorted as [->|Hrest]; [done|].
  rewrite Forall_forall in Hfirst. specialize (Hfirst _ Hrest). lia.
Qed.

(** A search for "sbin" among a future, two equities and an unrelated
    entry. *)
Lemma exact_symbol_match_is_listed_first_witness :
  ∃ first, head (search string_upper (Some "sbin"%string) None sample_values) = Some first
    ∧ upper string_upper (trading_symbol (entry_instrument first)) = string_upper "sbin".
Proof.
  apply (exact_symbol_match_is_listed_first string_upper "sbin" None sample_values
           (CatalogEntry (Instrument (Some "NSE_EQ|3") (Some "SBIN") (Some "NSE"))
              (Some "State Bank of India") (Some "EQUITY"))%string).
  - vm_compute. lia.
  - do 2 apply list_elem_of_further. apply list_elem_of_here.
  - reflexivity.
  - reflexivity.
Defined.

(** X25.  The cut at 50 drops only the least relevant.  When an enumerated
    object passes the filter and is not in the answer, the answer is full (50
    entries) and no entry of it is placed behind that object by the
    comparator. *)
Theorem search_drops_only_less_relevant (toUpperCase : string → string)
    (s : string) (type : option string) (values : list catalog_entry)
    (inst : catalog_entry) :
  (2 ≤ String.length (toUpperCase s))%nat →
  inst ∈ values →
  matches toUpperCase (toUpperCase s) (toUpperCase <$> type) inst = true →
  inst ∉ search toUpperCase (Some s) type values →
  length (search toUpperCase (Some s) type values) = 50%nat
  ∧ ∀ a, a ∈ search toUpperCase (Some s) type values →
         by_relevance toUpperCase (toUpperCase s) a inst ≤ 0.
Proof.
  intros Hlen Hin Hm. rewrite search_unfold.
  destruct (Nat.ltb_spec (String.length (toUpperCase s)) 2) as [?|_]; [lia|].
  set (sorted := stable_sort _ _). intros Hout.
  assert (inst ∈ sorted) as Hsorted.
  { unfold sorted. rewrite stable_sort_Permutation. by apply list_elem_of_filter. }
  assert (StronglySorted (λ a b, rank toUpperCase (toUpperCase s) a
                                 ≤ rank toUpperCase (toUpperCase s) b) sorted) as Hs.
  { apply stable_sort_sorted. intros a b. apply by_relevance_le. }
  rewrite <-(take_drop 50 sorted) in Hsorted, Hs.
  apply elem_of_app in Hsorted as [?|Hdrop]; [done|].
  split.
  - rewrite length_take. apply Nat.min_l.
    destruct (decide (50 ≤ length sorted)%nat) as [|Hshort]; [done|].
    rewrite drop_ge in Hdrop by lia. by apply elem_of_nil in Hdrop.
  - intros a Ha. apply by_relevance_le.
    by apply (StronglySorted_app_1_elem_of _ _ _ _ _ Hs).
Qed.

(** Fifty equities named SBIN fill the answer; the future is left out. *)
Lemma search_drops_only_less_relevant_witness :
  length (search string_upper (Some "sbin"%string) None crowded_values) = 50%nat
  ∧ ∀ a, a ∈ search string_upper (Some "sbin"%string) None crowded_values →
         by_relevance string_upper (string_upper "sbin") a
           (CatalogEntry (Instrument (Some "NSE_FO|1") (Some "SBIN24DECFUT") (Some "NSE_FO"))
              (Some "State Bank of India") (Some "FUT"))%string ≤ 0.
Proof.
  apply (search_drops_only_less_relevant string_upper "sbin" None crowded_values).
  - vm_compute. lia.
  - apply elem_of_app. right. apply list_elem_of_here.
  - reflexivity.
  - assert (search string_upper (Some "sbin"%string) None crowded_values
            = replicate 50 (CatalogEntry (Instrument (Some "NSE_EQ|3") (Some "SBIN") (Some "NSE"))
                              (Some "State Bank of India") (Some "EQUITY"))%string) as ->
      by (vm_compute; reflexivity).
    intros Hin. apply elem_of_replicate_inv in Hin. discriminate Hin.
Defined.

(** X26.  Nothing is lost below the cut.  When at most 50 of the enumerated
    objects pass the filter, the answer consists of exactly those objects,
    each as often as it is enumerated. *)
Theorem search_lists_every_match_when_few (toUpperCase : string → string)
    (s : string) (type : option string) (values : list catalog_entry) :
  (2 ≤ String.length (toUpperCase s))%nat →
  (length (filter (λ inst, matches toUpperCase (toUpperCase s) (toUpperCase <$> type) inst
                           = true) values) ≤ 50)%nat →
  search toUpperCase (Some s) type values
  ≡ₚ filter (λ inst, matches toUpperCase (toUpperCase s) (toUpperCase <$> type) inst = true)
       values.
Proof.
  intros Hlen Hfew. rewrite search_unfold.
  destruct (Nat.ltb_spec (String.length (toUpperCase s)) 2) as [?|_]; [lia|].
  rewrite take_ge; [apply stable_sort_Permutation|].
  by rewrite stable_sort_Permutation.
Qed.

(** Three of the four sample entries match "sbi". *)
Lemma search_lists_every_match_when_few_witness :
  search string_upper (Some "sbi"%string) None sample_values
  ≡ₚ filter (λ inst, matches string_upper (string_upper "sbi") (string_upper <$> None) inst
                     = true) sample_values.
Proof.
  apply (search_lists_every_match_when_few string_upper "sbi" None sample_values).
  - vm_compute. lia.
  - vm_compute. lia.
Defined.

(** X27.  Ties keep the enumeration order.  For any entry [c], the entries
    of the answer that the comparator ties with [c] are an initial part of
    the matching objects tied with [c], in the order in which they are
    enumerated: sorting never swaps two equally relevant entries, and the cut
    keeps the earlier ones. *)
Theorem search_keeps_enumeration_order_among_ties (toUpperCase : string → string)
    (q type : option string) (values : list catalog_entry) (c : catalog_entry) :
  let query := default ""%string (toUpperCase <$> q) in
  filter (λ a, by_relevance toUpperCase query a c = 0) (search toUpperCase q type values)
  `prefix_of`
  filter (λ a, by_relevance toUpperCase query a c = 0)
    (filter (λ inst, matches toUpperCase query (toUpperCase <$> type) inst = true) values).
Proof.
  cbv zeta. rewrite search_unfold. destruct q as [s|]; [|apply prefix_nil]. simpl.
  destruct (String.length (toUpperCase s) <? 2)%nat; [apply prefix_nil|].
  etrans; [apply filter_take_prefix|].
  rewrite !(list_filter_iff (λ a, by_relevance toUpperCase (toUpperCase s) a c = 0)
              (λ a, rank toUpperCase (toUpperCase s) a = rank toUpperCase (toUpperCase s) c))
    by (intros a; apply by_relevance_tied).
  rewrite (stable_sort_stable _ (rank toUpperCase (toUpperCase s))); [done|].
  intros a b. apply by_relevance_le.
Qed.

(** ** The other two instrument maps *)

(** A left fold of writes leaves, under each key, the value of the last
    write to it. *)
Lemma foldl_last_writer {R} (step : gmap string string → R → gmap string string)
    (writes : R → bool) (val : R → option string) (s : string) :
  (∀ m r, step m r !! s = if writes r then val r else m !! s) →
  ∀ rs m, foldl step m rs !! s
          = match last (filter (λ r, writes r = true) rs) with
            | Some r => val r
            | None => m !! s
            end.
Proof.
  intros Hstep rs. induction rs as [|r rs IH] using rev_ind; intros m; [done|].
  rewrite foldl_app, filter_app. simpl. rewrite Hstep.
  destruct (writes r) eqn:Hr.
  - rewrite filter_cons_True by done. by rewrite filter_nil, last_snoc.
  - rewrite filter_cons_False by (by rewrite Hr). by rewrite filter_nil, app_nil_r, IH.
Qed.

Lemma csv_on_data_lookup s m r :
  s ≠ ""%string →
  csv.on_data m r !! s = if csv.lists s r then csv.instrument_key r else m !! s.
Proof.
  intros Hs. unfold csv.on_data, csv.lists. cbv zeta.
  destruct (csv.trading_symbol r) as [sym|] eqn:Hsym; simpl; [|done].
  destruct (csv.instrument_key r) as [key|] eqn:Hkey; simpl.
  2:{ by rewrite !andb_false_r. }
  destruct (decide (sym = s)) as [->|Hne].
  - rewrite bool_decide_eq_true_2 by done.
    rewrite (proj2 (String.eqb_neq s "") Hs). simpl.
    destruct (negb (String.eqb key "")); simpl; [by rewrite lookup_insert_eq|done].
  - rewrite (bool_decide_eq_false_2 (Some sym = Some s)) by congruence. simpl.
    destruct (negb (String.eqb sym "") && negb (String.eqb key "")); [|done].
    by rewrite lookup_insert_ne.
Qed.

Lemma csv_syncInstruments_rows rows_of m :
  csv.syncInstruments rows_of m = foldl csv.on_data m (csv.synced_rows rows_of).
Proof.
  unfold csv.syncInstruments, csv.synced_rows, csv.segments. simpl.
  by rewrite app_nil_r, !foldl_app.
Qed.

Lemma csv_getInstrumentToken_bare m s :
  contains ":" s = false →
  csv.getInstrumentToken m s = if negb (truthy_str (m !! s)) then None else m !! s.
Proof.
  intros Hs. unfold csv.getInstrumentToken. by rewrite (split_without_separator _ _ Hs).
Qed.

Lemma csv_getInstrumentToken_qualified m x s :
  contains ":" x = false → contains ":" s = false →
  csv.getInstrumentToken m (x +:+ ":" +:+ s) = csv.getInstrumentToken m s.
Proof.
  intros Hx Hs. rewrite (csv_getInstrumentToken_bare _ _ Hs). unfold csv.getInstrumentToken.
  change (x +:+ ":" +:+ s) with (x +:+ String ":" s).
  by rewrite (split_qualified _ _ _ Hx), (split_without_separator _ _ Hs).
Qed.

(** X28.  The second server resolves a symbol to its last listing.  After a
    sync, a symbol (non-empty, without colon), with any exchange qualifier or
    with none, resolves to the instrument key of the last row that lists it
    with a non-empty key, the segments being read in the order NSE, NFO, MCX,
    CDS; a symbol no row lists resolves as before the sync.  The qualifier
    plays no part: a later segment's listing replaces the NSE one. *)
Theorem csv_symbol_resolves_to_last_listing (rows_of : string → list csv.row)
    (m : gmap string string) (x s : string) :
  contains ":" x = false → contains ":" s = false → s ≠ ""%string →
  let resolved :=
    match last (filter (λ r, csv.lists s r = true) (csv.synced_rows rows_of)) with
    | Some r => csv.instrument_key r
    | None => csv.getInstrumentToken m s
    end in
  csv.getInstrumentToken (csv.syncInstruments rows_of m) (x +:+ ":" +:+ s) = resolved
  ∧ csv.getInstrumentToken (csv.syncInstruments rows_of m) s = resolved.
Proof.
  intros Hx Hs Hne. cbv zeta.
  rewrite (csv_getInstrumentToken_qualified _ _ _ Hx Hs).
  split; [|].
  all: rewrite !(csv_getInstrumentToken_bare _ _ Hs), csv_syncInstruments_rows.
  all: rewrite (foldl_last_writer _ (csv.lists s) csv.instrument_key s)
         by (intros; by apply csv_on_data_lookup).
  all: destruct (last _) as [r|] eqn:Hlast; [|done].
  all: apply last_Some_elem_of, list_elem_of_filter in Hlast as [Hr _].
  all: unfold csv.lists in Hr; apply andb_true_iff in Hr as [_ Hr]; by rewrite Hr.
Qed.

(** GOLD is listed on the NSE and on the MCX; the MCX row is read later. *)
Lemma csv_symbol_resolves_to_last_listing_witness :
  csv.getInstrumentToken (csv.syncInstruments sample_rows ∅) "NSE:GOLD" = Some "MCX_FO|GOLD"%string
  ∧ csv.getInstrumentToken (csv.syncInstruments sample_rows ∅) "GOLD" = Some "MCX_FO|GOLD"%string.
Proof.
  exact (csv_symbol_resolves_to_last_listing sample_rows ∅ "NSE" "GOLD"
           eq_refl eq_refl ltac:(discriminate)).
Defined.

Lemma legacy_store_lookup s m it :
  s ≠ ""%string →
  legacy.store m it !! s
  = if legacy.lists s it
    then js_or (legacy.instrument_token it) (legacy.instrument_key it)
    else m !! s.
Proof.
  intros Hs. unfold legacy.store, legacy.lists. cbv zeta.
  destruct (js_or (legacy.trading_symbol it) (legacy.symbol it)) as [sym|] eqn:Hsym;
    simpl; [|done].
  destruct (js_or (legacy.instrument_token it) (legacy.instrument_key it)) as [tok|] eqn:Htok;
    simpl.
  2:{ by rewrite !andb_false_r. }
  destruct (decide (sym = s)) as [->|Hne].
  - rewrite bool_decide_eq_true_2 by done.
    rewrite (proj2 (String.eqb_neq s "") Hs). simpl.
    destruct (negb (String.eqb tok "") && strict_eq _ _); simpl;
      [by rewrite lookup_insert_eq|done].
  - rewrite (bool_decide_eq_false_2 (Some sym = Some s)) by congruence. simpl.
    destruct (negb (String.eqb sym "") && negb (String.eqb tok "") && strict_eq _ _); [|done].
    by rewrite lookup_insert_ne.
Qed.

Lemma legacy_loadInstruments_lookup s file m :
  s ≠ ""%string →
  legacy.loadInstruments file m !! s
  = match last (filter (λ it, legacy.lists s it = true) (default [] file)) with
    | Some it => js_or (legacy.instrument_token it) (legacy.instrument_key it)
    | None => m !! s
    end.
Proof.
  intros Hs. destruct file as [instruments|]; simpl; [|done].
  apply (foldl_last_writer _ (legacy.lists s)
           (λ it, js_or (legacy.instrument_token it) (legacy.instrument_key it))).
  intros. by apply legacy_store_lookup.
Qed.

(** X29.  The server of [part_000] resolves only qualified symbols, to NSE
    entries.
    After the load, a symbol (non-empty, without colon) behind an exchange
    qualifier resolves to the token of the last item of the file that carries
    it, has a non-empty token and has exchange NSE; items of other exchanges
    are never stored.  An unqualified symbol is looked up under "undefined":
    unless an item of that name was stored, it resolves to nothing, whatever
    the file lists. *)
Theorem legacy_resolves_qualified_nse_symbols (file : option (list legacy.item))
    (m : gmap string string) (x s : string) :
  contains ":" x = false → contains ":" s = false → s ≠ ""%string →
  legacy.getInstrumentToken (legacy.loadInstruments file m) (x +:+ ":" +:+ s)
  = match last (filter (λ it, legacy.lists s it = true) (default [] file)) with
    | Some it => js_or (legacy.instrument_token it) (legacy.instrument_key it)
    | None => legacy.getInstrumentToken m (x +:+ ":" +:+ s)
    end
  ∧ ((∀ it, it ∈ default [] file → legacy.lists "undefined" it = false) →
     m !! "undefined"%string = None →
     legacy.getInstrumentToken (legacy.loadInstruments file m) s = None).
Proof.
  intros Hx Hs Hne. split.
  - unfold legacy.getInstrumentToken.
    change (x +:+ ":" +:+ s) with (x +:+ String ":" s).
    rewrite (split_qualified _ _ _ Hx), (split_without_separator _ _ Hs). simpl.
    rewrite (legacy_loadInstruments_lookup _ _ _ Hne).
    destruct (last _) as [it|] eqn:Hlast; [|done].
    apply last_Some_elem_of, list_elem_of_filter in Hlast as [Hit _].
    unfold legacy.lists in Hit. apply andb_true_iff in Hit as [Hit _].
    apply andb_true_iff in Hit as [_ Hit]. by rewrite Hit.
  - intros Hfile Hm. unfold legacy.getInstrumentToken.
    rewrite (split_without_separator _ _ Hs). simpl.
    rewrite legacy_loadInstruments_lookup by done.
    destruct (last _) as [it|] eqn:Hlast; [|by rewrite Hm].
    apply last_Some_elem_of, list_elem_of_filter in Hlast as [Hit Hin].
    by rewrite (Hfile _ Hin) in Hit.
Qed.

(** The file lists SBIN on the NSE and GOLD on the MCX. *)
Lemma legacy_resolves_qualified_nse_symbols_witness :
  legacy.getInstrumentToken (legacy.loadInstruments (Some sample_file) ∅) "NSE:SBIN"
  = Some "NSE_EQ|INE062A01020"%string
  ∧ ((∀ it, it ∈ sample_file → legacy.lists "undefined" it = false) →
     (∅ : gmap string string) !! "undefined"%string = None →
     legacy.getInstrumentToken (legacy.loadInstruments (Some sample_file) ∅) "SBIN" = None).
Proof.
  exact (legacy_resolves_qualified_nse_symbols (Some sample_file) ∅ "NSE" "SBIN"
           eq_refl eq_refl ltac:(discriminate)).
Defined.

(** ** The quantity limit on numbers *)

(** X30.  The quantity limit holds whenever a number is involved.  If the
    quantity is a number, or the limit is (the variable is unset), and the
    quantity is greater than the limit, then no run of the handler fetches
    the funds or places an order, and a signal that reaches the quantity
    check ends there with the log entry "skipped", "quantity (q) exceeds max
    limit (max)". *)
Theorem oversized_number_skipped_before_funds
    (cfg : config) (w : world) (data : payload) (st : state) (q : scalar) :
  quantity data = Some q →
  (∃ n, q = Num n) ∨ (∃ n, MAX_QUANTITY_PER_TRADE cfg = Num n) →
  value (MAX_QUANTITY_PER_TRADE cfg) < value q →
  never is_get_funds (webhook cfg w data st).2
  ∧ never is_place_order (webhook cfg w data st).2
  ∧ (∀ tok st1 tr1,
       to_quantity_check cfg w data st = (Next tok, st1, tr1) →
       webhook cfg w data st =
         (st1, tr1 ++ [LogWebhookOrder data "skipped"
                         (Some (QuantityExceeds (value q)
                                  (value (MAX_QUANTITY_PER_TRADE cfg)))) None]))
  ∧ reason_text (QuantityExceeds (value q) (value (MAX_QUANTITY_PER_TRADE cfg))) =
      "quantity (" +:+ pretty (value q) +:+ ") exceeds max limit ("
        +:+ pretty (value (MAX_QUANTITY_PER_TRADE cfg)) +:+ ")".
Proof.
  intros Hq Hnum Hmax.
  assert (quantity_of data = value q) as Hqty by (unfold quantity_of; by rewrite Hq).
  assert (exceeds_quantity_limit cfg data = true) as Hex.
  { rewrite (exceeds_quantity_limit_numeric cfg data q Hq Hnum), Hqty.
    by apply bool_decide_eq_true_2. }
  destruct (oversized_quantity_skipped_before_funds cfg w data st Hex)
    as (Hfunds & Horder & Hrun & Htext).
  rewrite Hqty in Hrun, Htext. done.
Qed.

(** Quantity 101 against the default limit of 100. *)
Lemma oversized_number_skipped_before_funds_witness :
  let w := sample_world t0 [] in
  let d := signal "NSE:SBIN" "BUY" 101 (Some 50) in
  never is_get_funds (webhook sample_cfg w d sample_state).2
  ∧ webhook sample_cfg w d sample_state =
      (State (creds sample_state) {[ "NSE:SBIN-BUY"%string := t0 ]} (dir sample_state),
       [Respond 200 Received; GetPositions] ++
       [LogWebhookOrder d "skipped" (Some (QuantityExceeds 101 100)) None])
  ∧ reason_text (QuantityExceeds 101 100) = "quantity (101) exceeds max limit (100)"%string.
Proof.
  pose proof (oversized_number_skipped_before_funds sample_cfg (sample_world t0 [])
                (signal "NSE:SBIN" "BUY" 101 (Some 50)) sample_state (Num 101)
                eq_refl (or_introl (ex_intro _ 101 eq_refl)) eq_refl)
    as (Hfunds & _ & Hrun & _).
  split; [exact Hfunds|]. split; [|reflexivity].
  apply (Hrun "NSE_EQ|INE062A01020"%string). reflexivity.
Defined.
